(** * Agora backend: RSVP, subscription, event and calendar routes

    A shallow embedding of the Express route handlers for RSVPs,
    subscriptions, events and the calendar (src/backend/src/routes),
    together with the properties their specification states about them.

    The handlers talk to a relational store through a query builder.  The
    store is modelled as a record of tables (lists of rows); a handler is a
    state-passing function over the store that also records which store
    calls it issued.

    What the model takes for granted:
    - requests are handled one after the other, and the store itself never
      fails: a query fails only through [.single()] on a row count other
      than one;
    - an equality filter compares values, null included;
    - [order] on a text column compares strings character by character;
    - the server's time zone is UTC;
    - body and query fields are strings, or dates where the handler builds a
      [Date] from them;
    - a statement changes the rows it addresses and nothing else: what the
      schema may do on its own (cascading deletes, triggers) is not part of
      the sources and is not modelled. *)

From Stdlib Require Import ZArith.
From Equations Require Import Equations.
From stdpp Require Import gmap strings list fin_maps sorting pretty.

Local Open Scope string_scope.
Local Open Scope list_scope.
Local Open Scope Z_scope.

(** ** Rows of the store *)

Module Event.
Record row := mk {
  eventID : string;
  eventName : string;
  tickerSymbol : option string;
  gicsSector : option string;
  gicsSubSector : option string;
  eventType : string;
  location : option string;
  hostCompany : option string;
  companyID : option string;
  startDate : Z;              (* milliseconds since the epoch *)
  endDate : option Z;
  description : option string
}.
End Event.

Module Rsvp.
Record row := mk {
  rsvpID : string;
  userID : string;
  eventID : string;
  status : string;
  createdAt : Z
}.
End Rsvp.

Module Subscription.
Record row := mk {
  subID : string;
  userID : string;
  gicsSector : string;
  gicsSubCategory : option string;
  subStart : Z;
  subEnd : option Z;
  status : string;
  createdAt : Z
}.
End Subscription.

Module Company.
Record row := mk {
  tickerSymbol : string;
  companyName : string;
  gicsSector : string;
  gicsSubCategory : string
}.
End Company.

#[global] Instance event_eq_dec : EqDecision Event.row.
Proof. solve_decision. Defined.
#[global] Instance rsvp_eq_dec : EqDecision Rsvp.row.
Proof. solve_decision. Defined.
#[global] Instance subscription_eq_dec : EqDecision Subscription.row.
Proof. solve_decision. Defined.
#[global] Instance company_eq_dec : EqDecision Company.row.
Proof. solve_decision. Defined.

(** ** The store

    [next_id] feeds the generated primary keys and [now] is the clock the
    store stamps new rows with.  The in-memory store never fails, so the
    handlers' branches that answer 500 after a failed query are reachable
    only through [single], which fails unless exactly one row matched. *)

Record Db := mkDb {
  events : list Event.row;
  rsvps : list Rsvp.row;
  subscriptions : list Subscription.row;
  gics_companies : list Company.row;
  next_id : nat;
  now : Z
}.

Inductive Table := t_events | t_rsvps | t_subscriptions | t_gics_companies.
Inductive Verb := q_select | q_insert | q_update | q_delete.

Record World := mkWorld {
  store : Db;
  calls : list (Verb * Table)
}.

(** Generated keys: the decimal rendering of the counter. *)
Definition gen_id (n : nat) : string := "id-" +:+ pretty n.

(** *** Handler monad: state passing over [World] *)

Definition M (A : Type) : Type := World -> A * World.

Definition ret {A} (a : A) : M A := fun w => (a, w).
Definition bind {A B} (m : M A) (k : A -> M B) : M B :=
  fun w => let (a, w') := m w in k a w'.

Declare Scope handler_scope.
Delimit Scope handler_scope with handler.
Notation "'let*' x ':=' m 'in' k" := (bind m (fun x => k))
  (at level 10, x name, m at level 100, k at level 200) : handler_scope.
Notation "m ';;' k" := (bind m (fun _ => k))
  (at level 100, k at level 200, right associativity) : handler_scope.
Local Open Scope handler_scope.

Definition issue (v : Verb) (t : Table) : M unit :=
  fun w => (tt, mkWorld (store w) (calls w ++ [(v, t)])).
Definition get_db : M Db := fun w => (store w, w).
Definition put_db (d : Db) : M unit := fun w => (tt, mkWorld d (calls w)).

Definition run {A} (m : M A) (d : Db) : A * World := m (mkWorld d []).

(** [.single()]: the row when exactly one row matched, an error otherwise. *)
Definition single {A} (l : list A) : option A :=
  match l with
  | [x] => Some x
  | _ => None
  end.

(** *** Queries *)

Definition set_rsvps (d : Db) (l : list Rsvp.row) : Db :=
  mkDb (events d) l (subscriptions d) (gics_companies d) (next_id d) (now d).

Definition bump (d : Db) : Db :=
  mkDb (events d) (rsvps d) (subscriptions d) (gics_companies d)
       (S (next_id d)) (now d).

Definition select_events (P : Event.row -> Prop) `{!∀ r, Decision (P r)}
  : M (list Event.row) :=
  issue q_select t_events;;
  let* d := get_db in ret (filter P (events d)).

Definition select_rsvps (P : Rsvp.row -> Prop) `{!∀ r, Decision (P r)}
  : M (list Rsvp.row) :=
  issue q_select t_rsvps;;
  let* d := get_db in ret (filter P (rsvps d)).

Definition update_rsvps (P : Rsvp.row -> Prop) `{!∀ r, Decision (P r)}
    (f : Rsvp.row -> Rsvp.row) : M (list Rsvp.row) :=
  issue q_update t_rsvps;;
  let* d := get_db in
  put_db (set_rsvps d
            ((fun r => if decide (P r) then f r else r) <$> rsvps d));;
  ret (f <$> filter P (rsvps d)).

Definition insert_rsvp (userID eventID status : string) : M Rsvp.row :=
  issue q_insert t_rsvps;;
  let* d := get_db in
  let r := Rsvp.mk (gen_id (next_id d)) userID eventID status (now d) in
  put_db (bump (set_rsvps d (rsvps d ++ [r])));;
  ret r.

Definition delete_rsvps (P : Rsvp.row -> Prop) `{!∀ r, Decision (P r)}
  : M unit :=
  issue q_delete t_rsvps;;
  let* d := get_db in
  put_db (set_rsvps d (filter (fun r => ¬ P r) (rsvps d))).

(** ** Requests and replies *)

(** A body or query field: [None] when absent.  JavaScript's [!field] also
    holds for the empty string. *)
Definition truthy (field : option string) : option string :=
  match field with
  | Some s => if decide (s = "") then None else Some s
  | None => None
  end.

Inductive Reply (A : Type) :=
| Error (code : nat) (error : string)
| Json (code : nat) (body : A).
Arguments Error {A} code error.
Arguments Json {A} code body.

Definition code_of {A} (r : Reply A) : nat :=
  match r with Error c _ => c | Json c _ => c end.

(** ** routes/rsvp.ts *)

Definition set_status (s : string) (r : Rsvp.row) : Rsvp.row :=
  Rsvp.mk (Rsvp.rsvpID r) (Rsvp.userID r) (Rsvp.eventID r) s (Rsvp.createdAt r).

Definition validStatuses : list string :=
  ["ACCEPTED"; "DECLINED"; "TENTATIVE"; "PENDING"].

Record RsvpReply := mkRsvpReply {
  message : string;
  rsvp : Rsvp.row
}.

(** [.eq('userID', userID).eq('eventID', eventID)] *)
Definition addressed (userID eventID : string) (r : Rsvp.row) : Prop :=
  Rsvp.userID r = userID ∧ Rsvp.eventID r = eventID.

#[global] Instance addressed_dec u e r : Decision (addressed u e r).
Proof. unfold addressed. apply _. Defined.

(** POST /api/rsvp (rsvp.ts, lines 7-104) *)
Definition post_rsvp (userID : string) (eventID status : option string)
  : M (Reply RsvpReply) :=
  match truthy eventID, truthy status with
  | Some eventID, Some status =>
    if decide (status ∈ validStatuses) then
      (* Check if event exists *)
      let* event := select_events (fun ev => Event.eventID ev = eventID) in
      match single event with
      | None => ret (Error 404 "Event not found")
      | Some _ =>
        (* Check if RSVP already exists *)
        let* existing := select_rsvps (addressed userID eventID) in
        match single existing with
        | Some _ =>
          let* updated :=
            update_rsvps (addressed userID eventID) (set_status status) in
          match single updated with
          | None => ret (Error 500 "Failed to update RSVP")
          | Some r => ret (Json 200 (mkRsvpReply "RSVP updated successfully" r))
          end
        | None =>
          let* r := insert_rsvp userID eventID status in
          ret (Json 200 (mkRsvpReply "RSVP created successfully" r))
        end
      end
    else ret (Error 400 "Invalid RSVP status")
  | _, _ => ret (Error 400 "Event ID and status are required")
  end.

(** DELETE /api/rsvp/:eventID (rsvp.ts, lines 198-231) *)
Definition delete_rsvp (userID eventID : string) : M (Reply string) :=
  let* found := select_rsvps (addressed userID eventID) in
  match single found with
  | None => ret (Error 404 "RSVP not found")
  | Some _ =>
    delete_rsvps (addressed userID eventID);;
    ret (Json 200 "RSVP deleted successfully")
  end.

(** ** Dates

    A JavaScript [Date] holds a time value in milliseconds since the epoch,
    or is invalid.  The server's local time zone is taken to be UTC, so the
    local accessors ([getDate], [getDay], [setDate], [setHours],
    [toDateString]) agree with the UTC ones; every integer is taken as a
    representable time value. *)

Inductive Date := Valid (t : Z) | Invalid.

#[global] Instance date_eq_dec : EqDecision Date.
Proof. solve_decision. Defined.

Definition msPerDay : Z := 86400000.

Definition Day (t : Z) : Z := t / msPerDay.
Definition TimeWithinDay (t : Z) : Z := t mod msPerDay.

(** Day of the week, 0 = Sunday; 1 January 1970 was a Thursday. *)
Definition getDay (t : Z) : Z := (Day t + 4) mod 7.

(** Proleptic Gregorian calendar: day number to (year, month 1..12, day). *)
Definition civil_from_days (z : Z) : Z * Z * Z :=
  let z := z + 719468 in
  let era := z / 146097 in
  let doe := z mod 146097 in
  let yoe := (doe - doe / 1460 + doe / 36524 - doe / 146096) / 365 in
  let doy := doe - (365 * yoe + yoe / 4 - yoe / 100) in
  let mp := (5 * doy + 2) / 153 in
  let d := doy - (153 * mp + 2) / 5 + 1 in
  let m := if mp <? 10 then mp + 3 else mp - 9 in
  let y := yoe + era * 400 in
  (if m <=? 2 then y + 1 else y, m, d).

Definition days_from_civil (y m d : Z) : Z :=
  let y := if m <=? 2 then y - 1 else y in
  let era := y / 400 in
  let yoe := y mod 400 in
  let doy := (153 * (if m >? 2 then m - 3 else m + 9) + 2) / 5 + d - 1 in
  let doe := yoe * 365 + yoe / 4 - yoe / 100 + doy in
  era * 146097 + doe - 719468.

Definition getFullYear (t : Z) : Z := (civil_from_days (Day t)).1.1.
(** Month of the year, 0 = January. *)
Definition getMonth (t : Z) : Z := (civil_from_days (Day t)).1.2 - 1.
Definition getDate (t : Z) : Z := (civil_from_days (Day t)).2.

(** [MakeDay]: the day number of day [dt] of month [m] (0-based, any
    integer) of year [y]; [dt] outside the month carries over. *)
Definition MakeDay (y m dt : Z) : Z :=
  days_from_civil (y + m / 12) (m mod 12 + 1) 1 + dt - 1.

(** [new Date(year, month, day)]. *)
Definition Date_ymd (y m dt : Z) : Z :=
  let y := if (0 <=? y) && (y <=? 99) then 1900 + y else y in
  MakeDay y m dt * msPerDay.

(** [d.setDate(n)]: day [n] of [d]'s month, time of day kept. *)
Definition setDate (t n : Z) : Z :=
  (Day t - getDate t + n) * msPerDay + TimeWithinDay t.

(** [d.setHours(h, m, s, ms)]. *)
Definition setHours (t h m s ms : Z) : Z :=
  Day t * msPerDay + (h * 3600000 + m * 60000 + s * 1000 + ms).

Fixpoint zeros (n : nat) : string :=
  match n with O => "" | S n => "0" +:+ zeros n end.

(** Decimal rendering of a natural number, zero padded to [width]. *)
Definition pad (width : nat) (n : Z) : string :=
  let s := pretty (Z.to_N n) in
  zeros (width - String.length s)%nat +:+ s.

(** [d.toISOString().split('T')[0]] *)
Definition toISODate (t : Z) : string :=
  let '(y, m, d) := civil_from_days (Day t) in
  let year :=
    if (0 <=? y) && (y <=? 9999) then pad 4 y
    else (if y <? 0 then "-" else "+") +:+ pad 6 (Z.abs y) in
  year +:+ "-" +:+ pad 2 m +:+ "-" +:+ pad 2 d.

Definition weekdays : list string :=
  ["Sunday"; "Monday"; "Tuesday"; "Wednesday"; "Thursday"; "Friday";
   "Saturday"].
Definition months : list string :=
  ["Jan"; "Feb"; "Mar"; "Apr"; "May"; "Jun"; "Jul"; "Aug"; "Sep"; "Oct";
   "Nov"; "Dec"].

(** [d.toLocaleDateString('en-US', { weekday: 'long' })] *)
Definition dayName (t : Z) : string :=
  default "" (weekdays !! Z.to_nat (getDay t)).

(** [d.toDateString()], as in "Mon Mar 04 2024". *)
Definition toDateString (t : Z) : string :=
  let '(y, m, d) := civil_from_days (Day t) in
  String.substring 0 3 (dayName t) +:+ " "
  +:+ default "" (months !! Z.to_nat (m - 1)) +:+ " "
  +:+ pad 2 d +:+ " "
  +:+ (if y <? 0 then "-" else "") +:+ pad 4 (Z.abs y).

(** A time value from its UTC fields (month 1..12), for writing inputs. *)
Definition utc (y m d hh mm ss : Z) : Z :=
  days_from_civil y m d * msPerDay + hh * 3600000 + mm * 60000 + ss * 1000.

Lemma setDate_next_day (t : Z) : setDate t (getDate t + 1) = t + msPerDay.
Proof.
  unfold setDate, Day, TimeWithinDay, msPerDay.
  pose proof (Z.div_mod t 86400000 ltac:(lia)). lia.
Qed.

(** The loop of the date axis (events.ts lines 617-623): one entry per day
    from [current] while it is not after [stop]. *)
Equations? dateGrid_loop (current stop : Z) : list string
  by wf (Z.to_nat ((stop - current) / msPerDay + 1)) lt :=
  dateGrid_loop current stop with decide (current <= stop) => {
    | left _ => toISODate current
                :: dateGrid_loop (setDate current (getDate current + 1)) stop;
    | right _ => [] }.
Proof.
  rewrite setDate_next_day.
  replace (stop - (current + msPerDay)) with (stop - current + -1 * msPerDay)
    by lia.
  rewrite Z.div_add by (unfold msPerDay; lia).
  assert (0 <= (stop - current) / msPerDay)
    by (apply Z.div_pos; unfold msPerDay; lia).
  lia.
Qed.

(** ** Queries with embedded rows and ordering *)

(** An event as the calendar queries select it: with its classified
    company (through the ticker foreign key) and its nested RSVPs. *)
Module EventView.
Record t := mk {
  event : Event.row;
  gicsCompany : option Company.row;
  rsvps : list Rsvp.row
}.
End EventView.

Definition company_of (d : Db) (e : Event.row) : option Company.row :=
  ticker ← Event.tickerSymbol e;
  head (filter (fun c => Company.tickerSymbol c = ticker) (gics_companies d)).

Definition embed (d : Db) (P : Rsvp.row -> Prop) `{!∀ r, Decision (P r)}
    (e : Event.row) : EventView.t :=
  EventView.mk e (company_of d e)
    (filter (fun r => Rsvp.eventID r = Event.eventID e ∧ P r) (rsvps d)).

(** [.order('startDate', { ascending: true })] *)
Definition by_startDate (a b : Event.row) : Prop :=
  Event.startDate a <= Event.startDate b.
(** [.order('createdAt', { ascending: false })] *)
Definition by_createdAt_desc (a b : Rsvp.row) : Prop :=
  Rsvp.createdAt b <= Rsvp.createdAt a.
(** [.order('companyName', { ascending: true })], strings compared
    character by character. *)
Definition by_companyName (a b : Company.row) : Prop :=
  String.leb (Company.companyName a) (Company.companyName b) = true.

#[global] Instance by_startDate_dec a b : Decision (by_startDate a b).
Proof. unfold by_startDate. apply _. Defined.
#[global] Instance by_createdAt_desc_dec a b : Decision (by_createdAt_desc a b).
Proof. unfold by_createdAt_desc. apply _. Defined.
#[global] Instance by_companyName_dec a b : Decision (by_companyName a b).
Proof. unfold by_companyName. apply _. Defined.

(** An optional equality filter: [if (v) query = query.eq(column, v)]. *)
Definition eq_if_given (v : option string) (column : option string) : Prop :=
  match truthy v with
  | Some s => column = Some s
  | None => True
  end.

#[global] Instance eq_if_given_dec v c : Decision (eq_if_given v c).
Proof. unfold eq_if_given. destruct (truthy v); apply _. Defined.

(** Events matching [P], ordered by start date, each with its nested RSVPs
    matching [Q]; [inner] is the [rsvps!inner] embedding, which drops the
    events left without a nested RSVP. *)
Definition select_events_embedded (inner : bool) (P : Event.row -> Prop)
    `{!∀ r, Decision (P r)} (Q : Rsvp.row -> Prop) `{!∀ r, Decision (Q r)}
  : M (list EventView.t) :=
  issue q_select t_events;;
  let* d := get_db in
  let rows := embed d Q <$> merge_sort by_startDate (filter P (events d)) in
  ret (if inner then filter (fun v => EventView.rsvps v ≠ []) rows else rows).

Definition select_rsvps_ordered (P : Rsvp.row -> Prop) `{!∀ r, Decision (P r)}
  : M (list Rsvp.row) :=
  issue q_select t_rsvps;;
  let* d := get_db in
  ret (merge_sort by_createdAt_desc (filter P (rsvps d))).

Definition select_companies_ordered : M (list Company.row) :=
  issue q_select t_gics_companies;;
  let* d := get_db in
  ret (merge_sort by_companyName (gics_companies d)).

Definition select_subscriptions (P : Subscription.row -> Prop)
    `{!∀ r, Decision (P r)} : M (list Subscription.row) :=
  issue q_select t_subscriptions;;
  let* d := get_db in ret (filter P (subscriptions d)).

Definition set_subscriptions (d : Db) (l : list Subscription.row) : Db :=
  mkDb (events d) (rsvps d) l (gics_companies d) (next_id d) (now d).

Definition set_events (d : Db) (l : list Event.row) : Db :=
  mkDb l (rsvps d) (subscriptions d) (gics_companies d) (next_id d) (now d).

Definition insert_subscription (mkrow : string -> Z -> Subscription.row)
  : M Subscription.row :=
  issue q_insert t_subscriptions;;
  let* d := get_db in
  let r := mkrow (gen_id (next_id d)) (now d) in
  put_db (bump (set_subscriptions d (subscriptions d ++ [r])));;
  ret r.

Definition update_subscriptions (P : Subscription.row -> Prop)
    `{!∀ r, Decision (P r)} (f : Subscription.row -> Subscription.row)
  : M (list Subscription.row) :=
  issue q_update t_subscriptions;;
  let* d := get_db in
  put_db (set_subscriptions d
            ((fun r => if decide (P r) then f r else r) <$> subscriptions d));;
  ret (f <$> filter P (subscriptions d)).

Definition insert_event (mkrow : string -> Event.row) : M Event.row :=
  issue q_insert t_events;;
  let* d := get_db in
  let r := mkrow (gen_id (next_id d)) in
  put_db (bump (set_events d (events d ++ [r])));;
  ret r.

(** The server's [new Date()]. *)
Definition clock : M Z := fun w => (now (store w), w).

(** The idiom [if (!acc[k]) acc[k] = []; acc[k].push(x)] on an object used
    as a dictionary; the keys are taken not to name a member the object
    inherits from [Object.prototype]. *)
Definition push_at {A} (k : string) (x : A) (acc : gmap string (list A))
  : gmap string (list A) :=
  let acc := match acc !! k with
             | None => <[k := []]> acc
             | Some _ => acc
             end in
  alter (fun l => l ++ [x]) k acc.

(** ** routes/rsvp.ts, continued *)

Record RsvpStatistics := mkRsvpStatistics {
  total : nat;
  accepted : nat;
  declined : nat;
  tentative : nat;
  pending : nat
}.

Record EventRsvps := mkEventRsvps {
  listed : list Rsvp.row;                          (* rsvps *)
  rsvpsByStatus : gmap string (list Rsvp.row);
  rsvp_statistics : RsvpStatistics                  (* statistics *)
}.

Definition bucket_size (m : gmap string (list Rsvp.row)) (k : string) : nat :=
  match m !! k with
  | Some l => length l
  | None => 0%nat
  end.

(** GET /api/rsvp/event/:eventID (rsvp.ts, lines 142-196), with the
    optional [status] query parameter.  The user embedded in each row is
    left out. *)
Definition get_rsvp_event (eventID : string) (status : option string)
  : M (Reply EventRsvps) :=
  let* rsvps :=
    select_rsvps_ordered (fun r => Rsvp.eventID r = eventID
                                   ∧ eq_if_given status (Some (Rsvp.status r))) in
  (* Group RSVPs by status *)
  let rsvpsByStatus :=
    foldl (fun acc rsvp => push_at (Rsvp.status rsvp) rsvp acc) ∅ rsvps in
  (* Calculate statistics *)
  let statistics :=
    mkRsvpStatistics (length rsvps)
      (bucket_size rsvpsByStatus "ACCEPTED")
      (bucket_size rsvpsByStatus "DECLINED")
      (bucket_size rsvpsByStatus "TENTATIVE")
      (bucket_size rsvpsByStatus "PENDING") in
  ret (Json 200 (mkEventRsvps rsvps rsvpsByStatus statistics)).

(** ** routes/subscriptions.ts *)

Record SubscriptionReply := mkSubscriptionReply {
  sub_message : string;
  subscription : Subscription.row
}.

(** The duplicate check: [.eq('userID', userID).eq('gicsSector', gicsSector)
    .eq('gicsSubCategory', gicsSubCategory || null).eq('status', 'ACTIVE')].
    The filter on the sub-category is read as the equality the handler asks
    for, a null argument matching the rows whose sub-category is null; how
    the client library encodes a null argument is outside these sources. *)
Definition active_for (userID gicsSector : string)
    (gicsSubCategory : option string) (s : Subscription.row) : Prop :=
  Subscription.userID s = userID
  ∧ Subscription.gicsSector s = gicsSector
  ∧ Subscription.gicsSubCategory s = gicsSubCategory
  ∧ Subscription.status s = "ACTIVE".

#[global] Instance active_for_dec u g c s : Decision (active_for u g c s).
Proof. unfold active_for. apply _. Defined.

(** POST /api/subscriptions (subscriptions.ts, lines 40-98).  [subEnd] is
    the date [new Date(subEnd)] builds, [None] when the field is absent or
    empty. *)
Definition post_subscriptions (userID : string)
    (gicsSector gicsSubCategory : option string) (subEnd : option Date)
  : M (Reply SubscriptionReply) :=
  match truthy gicsSector with
  | None => ret (Error 400 "GICS sector is required")
  | Some gicsSector =>
    (* Check if similar subscription already exists *)
    let* existingSubscriptions :=
      select_subscriptions
        (active_for userID gicsSector (truthy gicsSubCategory)) in
    if decide (0 < length (take 1 existingSubscriptions))%nat then
      ret (Error 409 "Similar active subscription already exists")
    else
      match subEnd with
      | Some Invalid => ret (Error 500 "Internal server error")
      | _ =>
        let subEnd := match subEnd with Some (Valid t) => Some t | _ => None end in
        let* today := clock in
        let* subscription :=
          insert_subscription
            (fun id created =>
               Subscription.mk id userID gicsSector (truthy gicsSubCategory)
                 today subEnd "ACTIVE" created) in
        ret (Json 201 (mkSubscriptionReply "Subscription created successfully"
                         subscription))
      end
  end.

Definition validSubscriptionStatuses : list string :=
  ["ACTIVE"; "INACTIVE"; "EXPIRED"].

(** The body of an update: a field is [None] when undefined, [Some None]
    when null (for [subEnd]: when falsy) and [Some (Some v)] otherwise. *)
Module SubscriptionUpdate.
Record t := mk {
  gicsSector : option (option string);
  gicsSubCategory : option (option string);
  subEnd : option (option Date);
  status : option (option string)
}.
End SubscriptionUpdate.

(** [updateData] applied to a row; the sector and status columns do not
    take null, an update that sets one to null fails in the store. *)
Definition apply_update (u : SubscriptionUpdate.t)
  : option (Subscription.row -> Subscription.row) :=
  match SubscriptionUpdate.gicsSector u, SubscriptionUpdate.status u with
  | Some None, _ | _, Some None => None
  | sector, status =>
    Some (fun r =>
      Subscription.mk (Subscription.subID r) (Subscription.userID r)
        (match sector with Some (Some s) => s | _ => Subscription.gicsSector r end)
        (match SubscriptionUpdate.gicsSubCategory u with
         | Some c => c
         | None => Subscription.gicsSubCategory r
         end)
        (Subscription.subStart r)
        (match SubscriptionUpdate.subEnd u with
         | Some (Some (Valid t)) => Some t
         | Some _ => None
         | None => Subscription.subEnd r
         end)
        (match status with Some (Some s) => s | _ => Subscription.status r end)
        (Subscription.createdAt r))
  end.

(** [status && !validStatuses.includes(status)] *)
Definition rejected_status (status : option (option string)) : bool :=
  match status with
  | Some (Some s) =>
    bool_decide (s ≠ "" ∧ s ∉ validSubscriptionStatuses)
  | _ => false
  end.

(** PUT /api/subscriptions/:id (subscriptions.ts, lines 100-158) *)
Definition put_subscriptions (userID id : string) (body : SubscriptionUpdate.t)
  : M (Reply SubscriptionReply) :=
  (* Check if subscription exists and belongs to user *)
  let* existingSubscription :=
    select_subscriptions (fun s => Subscription.subID s = id) in
  match single existingSubscription with
  | None => ret (Error 404 "Subscription not found")
  | Some existingSubscription =>
    if decide (Subscription.userID existingSubscription ≠ userID) then
      ret (Error 403 "Insufficient permissions")
    else
      if rejected_status (SubscriptionUpdate.status body) then
        ret (Error 400 "Invalid subscription status")
      else
        match SubscriptionUpdate.subEnd body with
        | Some (Some Invalid) => ret (Error 500 "Internal server error")
        | _ =>
          match apply_update body with
          | None =>
            issue q_update t_subscriptions;;
            ret (Error 500 "Failed to update subscription")
          | Some updateData =>
            let* updated :=
              update_subscriptions (fun s => Subscription.subID s = id)
                                   updateData in
            match single updated with
            | None => ret (Error 500 "Failed to update subscription")
            | Some subscription =>
              ret (Json 200 (mkSubscriptionReply
                               "Subscription updated successfully" subscription))
            end
          end
        end
  end.

(** ** routes/events.ts *)

Module EventBody.
Record t := mk {
  eventName : option string;
  tickerSymbol : option string;
  gicsSector : option string;
  gicsSubSector : option string;
  eventType : option string;
  location : option string;
  hostCompany : option string;
  companyID : option string;
  startDate : option Date;     (* [new Date(startDate)], [None] if falsy *)
  endDate : option Date;
  description : option string
}.
End EventBody.

Definition validEventTypes : list string :=
  ["EARNINGS_CALL"; "INVESTOR_MEETING"; "CONFERENCE"; "ROADSHOW";
   "ANALYST_DAY"; "PRODUCT_LAUNCH"; "OTHER"].

(** [a <= b] on dates; a comparison with an invalid date is false. *)
Definition date_leb (a b : Date) : bool :=
  match a, b with
  | Valid a, Valid b => a <=? b
  | _, _ => false
  end.

Record EventReply := mkEventReply {
  event_message : string;
  event : Event.row
}.

(** POST /api/events (events.ts, lines 116-187), which the router runs
    behind [requireRole(['IR_ADMIN'])]. *)
Definition post_events (body : EventBody.t) : M (Reply EventReply) :=
  match truthy (EventBody.eventName body), truthy (EventBody.eventType body),
        EventBody.startDate body with
  | Some eventName, Some eventType, Some start =>
    (* Validate event type *)
    if decide (eventType ∈ validEventTypes) then
      (* Validate dates *)
      let end_ := EventBody.endDate body in
      if match end_ with Some e => date_leb e start | None => false end then
        ret (Error 400 "End date must be after start date")
      else
        match start, end_ with
        | Valid start, (None | Some (Valid _)) =>
          let endDate := match end_ with Some (Valid e) => Some e | _ => None end in
          let* event :=
            insert_event
              (fun id =>
                 Event.mk id eventName
                   (truthy (EventBody.tickerSymbol body))
                   (truthy (EventBody.gicsSector body))
                   (truthy (EventBody.gicsSubSector body))
                   eventType
                   (truthy (EventBody.location body))
                   (truthy (EventBody.hostCompany body))
                   (truthy (EventBody.companyID body))
                   start endDate
                   (truthy (EventBody.description body))) in
          ret (Json 201 (mkEventReply "Event created successfully" event))
        | _, _ => ret (Error 500 "Internal server error")
        end
    else ret (Error 400 "Invalid event type")
  | _, _, _ =>
    ret (Error 400 "Event name, type, and start date are required")
  end.

(** ** The calendar router

    Mounted at /api/calendar by index.ts; its source follows the events and
    auth routers in src/backend/src/routes/events.ts. *)

Module CalendarQuery.
Record t := mk {
  startDate : option Date;      (* [new Date(startDate)], [None] if falsy *)
  endDate : option Date;
  gicsSector : option string;
  eventType : option string;
  followedCompanies : option string
}.
End CalendarQuery.

(** [s.split(',')] *)
Fixpoint split_comma (s : string) : list string :=
  match s with
  | EmptyString => [""]
  | String c rest =>
    let parts := split_comma rest in
    if Ascii.eqb c (Ascii.ascii_of_nat 44) then "" :: parts
    else match parts with
         | p :: ps => String c p :: ps
         | [] => [String c ""]
         end
  end.

(** [if (followedCompanies) query = query.in('tickerSymbol', list)] *)
Definition in_if_given (followed : option string) (ticker : option string)
  : Prop :=
  match truthy followed with
  | Some s => ∃ t, ticker = Some t ∧ t ∈ split_comma s
  | None => True
  end.

#[global] Instance in_if_given_dec f t : Decision (in_if_given f t).
Proof.
  unfold in_if_given. destruct (truthy f) as [s|]; [|apply _].
  destruct t as [t|].
  - destruct (decide (t ∈ split_comma s)) as [Hin|Hout].
    + left. eauto.
    + right. intros (t' & [= <-] & Hin). done.
  - right. intros (t' & [=] & _).
Defined.

(** An event in a day's bucket, with the requesting user's own RSVP. *)
Record CalendarEvent := mkCalendarEvent {
  shown : EventView.t;                  (* ...event *)
  userRsvp : option Rsvp.row
}.

Record CalendarRow := mkCalendarRow {
  company : Company.row;
  row_events : gmap string (list CalendarEvent)      (* events *)
}.

Record CalendarStatistics := mkCalendarStatistics {
  totalEvents : nat;
  userRsvps : nat;
  eventsByType : gmap string nat
}.

Record CalendarReply := mkCalendarReply {
  calendarData : list CalendarRow;
  dateGrid : list string;
  dateRange : string * string;
  userSubscriptions : list Subscription.row;
  statistics : CalendarStatistics
}.

Definition own (userID : string) (l : list Rsvp.row) : list Rsvp.row :=
  filter (fun r => Rsvp.userID r = userID) l.

(** One row of the grid: the company's events grouped by date. *)
Definition calendar_row (userID : string) (events : list EventView.t)
    (company : Company.row) : CalendarRow :=
  let companyEvents :=
    filter (fun v =>
              Event.tickerSymbol (EventView.event v)
                = Some (Company.tickerSymbol company)
              ∨ Company.tickerSymbol <$> EventView.gicsCompany v
                = Some (Company.tickerSymbol company)) events in
  (* Group events by date *)
  let eventsByDate :=
    foldl (fun acc v =>
             let dateKey := toISODate (Event.startDate (EventView.event v)) in
             push_at dateKey
               (mkCalendarEvent v (head (own userID (EventView.rsvps v)))) acc)
          ∅ companyEvents in
  mkCalendarRow
    (Company.mk (Company.tickerSymbol company) (Company.companyName company)
                (Company.gicsSector company) (Company.gicsSubCategory company))
    eventsByDate.

(** Default to current month if no date range provided *)
Definition range_start (today : Z) (q : CalendarQuery.t) : Date :=
  match CalendarQuery.startDate q with
  | Some d => d
  | None => Valid (Date_ymd (getFullYear today) (getMonth today) 1)
  end.

Definition range_end (today : Z) (q : CalendarQuery.t) : Date :=
  match CalendarQuery.endDate q with
  | Some d => d
  | None => Valid (Date_ymd (getFullYear today) (getMonth today + 1) 0)
  end.

(** GET /api/calendar (the calendar router, events.ts lines 524-665) *)
Definition get_calendar (userID : string) (q : CalendarQuery.t)
  : M (Reply CalendarReply) :=
  let* today := clock in
  match range_start today q, range_end today q with
  | Valid start, Valid end_ =>
    let* events :=
      select_events_embedded false
        (fun e => start <= Event.startDate e
                  ∧ Event.startDate e <= end_
                  ∧ eq_if_given (CalendarQuery.gicsSector q) (Event.gicsSector e)
                  ∧ eq_if_given (CalendarQuery.eventType q)
                                (Some (Event.eventType e))
                  ∧ in_if_given (CalendarQuery.followedCompanies q)
                                (Event.tickerSymbol e))
        (fun _ => True) in
    (* Get all companies for the Y-axis *)
    let* gicsCompanies := select_companies_ordered in
    (* Group events by company and date *)
    let calendarData := calendar_row userID events <$> gicsCompanies in
    (* Generate date grid for X-axis *)
    let dateGrid := dateGrid_loop start end_ in
    (* Get user's subscriptions for filtering *)
    let* userSubscriptions :=
      select_subscriptions (fun s => Subscription.userID s = userID
                                     ∧ Subscription.status s = "ACTIVE") in
    (* Statistics *)
    let totalEvents := length events in
    let userRsvps :=
      foldl (fun count v => (count + length (own userID (EventView.rsvps v)))%nat)
            0%nat events in
    let eventsByType :=
      foldl (fun acc v =>
               let type := Event.eventType (EventView.event v) in
               <[type := (default 0 (acc !! type) + 1)%nat]> acc)
            ∅ events in
    ret (Json 200
           (mkCalendarReply calendarData dateGrid
              (toISODate start, toISODate end_)
              userSubscriptions
              (mkCalendarStatistics totalEvents userRsvps eventsByType)))
  | _, _ => ret (Error 500 "Internal server error")
  end.

Record WeekDay := mkWeekDay {
  date : string;
  day_name : string;                    (* dayName *)
  day_events : list EventView.t         (* events *)
}.

Record WeekReply := mkWeekReply {
  weekData : list WeekDay;
  weekRange : string * string
}.

(** Get start of week (Monday) *)
Definition startOfWeek (targetDate : Z) : Z :=
  setDate targetDate (getDate targetDate - getDay targetDate + 1).

(** Get end of week (Sunday) *)
Definition endOfWeek (startOfWeek : Z) : Z :=
  setHours (setDate startOfWeek (getDate startOfWeek + 6)) 23 59 59 999.

(** GET /api/calendar/week (the calendar router, events.ts lines 667-729) *)
Definition get_calendar_week (userID : string) (date : option Date)
  : M (Reply WeekReply) :=
  let* today := clock in
  let targetDate := match date with Some d => d | None => Valid today end in
  match targetDate with
  | Invalid => ret (Error 500 "Internal server error")
  | Valid targetDate =>
    let startOfWeek := startOfWeek targetDate in
    let endOfWeek := endOfWeek startOfWeek in
    let* events :=
      select_events_embedded true
        (fun e => startOfWeek <= Event.startDate e
                  ∧ Event.startDate e <= endOfWeek)
        (fun r => Rsvp.userID r = userID) in
    (* Group events by day *)
    let weekData :=
      (fun i =>
         let currentDay := setDate startOfWeek (getDate startOfWeek + i) in
         let dayEvents :=
           filter (fun v =>
                     toDateString (Event.startDate (EventView.event v))
                     = toDateString currentDay) events in
         mkWeekDay (toISODate currentDay) (dayName currentDay) dayEvents)
      <$> [0; 1; 2; 3; 4; 5; 6] in
    ret (Json 200 (mkWeekReply weekData
                     (toISODate startOfWeek, toISODate endOfWeek)))
  end.

(** ** The remaining routes of rsvp.ts, subscriptions.ts and events.ts *)

(** GET /api/rsvp/user/:userID (rsvp.ts, lines 106-140); [role] is the
    role of the requesting user.  The event embedded in each row is left
    out. *)
Definition get_rsvp_user (requestingUser role userID : string)
  : M (Reply (list Rsvp.row)) :=
  (* Users can only view their own RSVPs unless they're managers *)
  if decide (userID ≠ requestingUser ∧ role ≠ "ANALYST_MANAGER"
             ∧ role ≠ "IR_ADMIN") then
    ret (Error 403 "Insufficient permissions")
  else
    let* rsvps := select_rsvps_ordered (fun r => Rsvp.userID r = userID) in
    ret (Json 200 rsvps).

(** [.order('createdAt', { ascending: false })] on subscriptions *)
Definition by_sub_createdAt_desc (a b : Subscription.row) : Prop :=
  Subscription.createdAt b <= Subscription.createdAt a.

#[global] Instance by_sub_createdAt_desc_dec a b :
  Decision (by_sub_createdAt_desc a b).
Proof. unfold by_sub_createdAt_desc. apply _. Defined.

Definition select_subscriptions_ordered (P : Subscription.row -> Prop)
    `{!∀ r, Decision (P r)} : M (list Subscription.row) :=
  issue q_select t_subscriptions;;
  let* d := get_db in
  ret (merge_sort by_sub_createdAt_desc (filter P (subscriptions d))).

(** GET /api/subscriptions (subscriptions.ts, lines 7-38), with the optional
    [status] query parameter.  The user embedded in each row is left out. *)
Definition get_subscriptions (userID : string) (status : option string)
  : M (Reply (list Subscription.row)) :=
  let* subscriptions :=
    select_subscriptions_ordered
      (fun s => Subscription.userID s = userID
                ∧ eq_if_given status (Some (Subscription.status s))) in
  ret (Json 200 subscriptions).

Definition delete_subscriptions_where (P : Subscription.row -> Prop)
    `{!∀ r, Decision (P r)} : M unit :=
  issue q_delete t_subscriptions;;
  let* d := get_db in
  put_db (set_subscriptions d (filter (fun r => ¬ P r) (subscriptions d))).

(** DELETE /api/subscriptions/:id (subscriptions.ts, lines 160-196) *)
Definition delete_subscriptions (userID id : string) : M (Reply string) :=
  (* Check if subscription exists and belongs to user *)
  let* existingSubscription :=
    select_subscriptions (fun s => Subscription.subID s = id) in
  match single existingSubscription with
  | None => ret (Error 404 "Subscription not found")
  | Some existingSubscription =>
    if decide (Subscription.userID existingSubscription ≠ userID) then
      ret (Error 403 "Insufficient permissions")
    else
      delete_subscriptions_where (fun s => Subscription.subID s = id);;
      ret (Json 200 "Subscription deleted successfully")
  end.

(** [.order('gicsSector').order('gicsSubCategory')]: by sector, then by
    sub-category. *)
Definition by_sector (a b : Company.row) : Prop :=
  match String.compare (Company.gicsSector a) (Company.gicsSector b) with
  | Lt => True
  | Eq => String.leb (Company.gicsSubCategory a) (Company.gicsSubCategory b)
          = true
  | Gt => False
  end.

#[global] Instance by_sector_dec a b : Decision (by_sector a b).
Proof. unfold by_sector. destruct (String.compare _ _); apply _. Defined.

(** [set.add(x)] on a [Set], which keeps the order of insertion. *)
Definition set_add (x : string) (set : list string) : list string :=
  if decide (x ∈ set) then set else set ++ [x].

(** [if (!sectorMap[k]) sectorMap[k] = new Set(); sectorMap[k].add(x)] on
    an object whose keys [Object.keys] lists in the order of insertion (the
    keys are taken to be neither array indices nor members inherited from
    [Object.prototype]). *)
Fixpoint sector_add (k x : string) (sectorMap : list (string * list string))
  : list (string * list string) :=
  match sectorMap with
  | [] => [(k, set_add x [])]
  | (k', set) :: rest =>
    if decide (k' = k) then (k', set_add x set) :: rest
    else (k', set) :: sector_add k x rest
  end.

Record SectorEntry := mkSectorEntry {
  sector : string;
  subCategories : list string
}.

(** GET /api/subscriptions/sectors (subscriptions.ts, lines 198-232) *)
Definition get_sectors : M (Reply (list SectorEntry)) :=
  issue q_select t_gics_companies;;
  let* d := get_db in
  let sectors := merge_sort by_sector (gics_companies d) in
  (* Group by sector *)
  let sectorMap :=
    foldl (fun acc item =>
             sector_add (Company.gicsSector item)
                        (Company.gicsSubCategory item) acc)
          [] sectors in
  (* Convert to array format *)
  let sectorsList :=
    (fun entry => mkSectorEntry entry.1 entry.2) <$> sectorMap in
  ret (Json 200 sectorsList).

(** GET /api/events/:id (events.ts, lines 86-114); the user embedded in each
    nested RSVP and the user company are left out. *)
Definition get_event (id : string) : M (Reply EventView.t) :=
  let* event :=
    select_events_embedded false (fun e => Event.eventID e = id)
                           (fun _ => True) in
  match single event with
  | None => ret (Error 404 "Event not found")
  | Some event => ret (Json 200 event)
  end.

(** The body of an event update: a field is [None] when undefined,
    [Some None] when null (for the dates: when falsy) and [Some (Some v)]
    otherwise, a date being what [new Date(field)] builds. *)
Module EventUpdate.
Record t := mk {
  eventName : option (option string);
  tickerSymbol : option (option string);
  gicsSector : option (option string);
  gicsSubSector : option (option string);
  eventType : option (option string);
  location : option (option string);
  hostCompany : option (option string);
  companyID : option (option string);
  startDate : option (option Date);
  endDate : option (option Date);
  description : option (option string)
}.
End EventUpdate.

(** [eventType && !validEventTypes.includes(eventType)] *)
Definition rejected_type (eventType : option (option string)) : bool :=
  match eventType with
  | Some (Some s) => bool_decide (s ≠ "" ∧ s ∉ validEventTypes)
  | _ => false
  end.

(** [start] and [end] as the update handler leaves them after its date
    block: both undefined unless [startDate] is truthy. *)
Definition update_start (body : EventUpdate.t) : option Date :=
  match EventUpdate.startDate body with
  | Some (Some start) => Some start
  | _ => None
  end.

Definition update_end (body : EventUpdate.t) : option Date :=
  match EventUpdate.startDate body, EventUpdate.endDate body with
  | Some (Some _), Some (Some e) => Some e
  | _, _ => None
  end.

(** An undefined field keeps the column, any other value replaces it. *)
Definition replace {A} (field : option A) (column : A) : A :=
  match field with
  | Some v => v
  | None => column
  end.

(** [updateData] applied to a row.  The name and type columns do not take
    null: an update that sets one to null fails in the store.
    [startDate: start?.toISOString()] leaves the column alone when [start]
    is undefined; [endDate: end ? end.toISOString() : null] stores null
    unless [end] is a date. *)
Definition event_update (body : EventUpdate.t) (start finish : option Z)
  : option (Event.row -> Event.row) :=
  match EventUpdate.eventName body, EventUpdate.eventType body with
  | Some None, _ | _, Some None => None
  | name, type =>
    Some (fun r =>
      Event.mk (Event.eventID r)
        (match name with Some (Some s) => s | _ => Event.eventName r end)
        (replace (EventUpdate.tickerSymbol body) (Event.tickerSymbol r))
        (replace (EventUpdate.gicsSector body) (Event.gicsSector r))
        (replace (EventUpdate.gicsSubSector body) (Event.gicsSubSector r))
        (match type with Some (Some s) => s | _ => Event.eventType r end)
        (replace (EventUpdate.location body) (Event.location r))
        (replace (EventUpdate.hostCompany body) (Event.hostCompany r))
        (replace (EventUpdate.companyID body) (Event.companyID r))
        (match EventUpdate.startDate body, start with
         | Some _, Some s => s
         | _, _ => Event.startDate r
         end)
        (match EventUpdate.endDate body with
         | Some _ => finish
         | None => Event.endDate r
         end)
        (replace (EventUpdate.description body) (Event.description r)))
  end.

Definition update_events (P : Event.row -> Prop) `{!∀ r, Decision (P r)}
    (f : Event.row -> Event.row) : M (list Event.row) :=
  issue q_update t_events;;
  let* d := get_db in
  put_db (set_events d
            ((fun r => if decide (P r) then f r else r) <$> events d));;
  ret (f <$> filter P (events d)).

Definition delete_events_where (P : Event.row -> Prop)
    `{!∀ r, Decision (P r)} : M unit :=
  issue q_delete t_events;;
  let* d := get_db in
  put_db (set_events d (filter (fun r => ¬ P r) (events d))).

(** PUT /api/events/:id (events.ts, lines 189-272), which the router runs
    behind [requireRole(['IR_ADMIN'])]. *)
Definition put_events (id : string) (body : EventUpdate.t)
  : M (Reply EventReply) :=
  (* Check if event exists *)
  let* existingEvent := select_events (fun e => Event.eventID e = id) in
  match single existingEvent with
  | None => ret (Error 404 "Event not found")
  | Some _ =>
    (* Validate event type if provided *)
    if rejected_type (EventUpdate.eventType body) then
      ret (Error 400 "Invalid event type")
    else
      (* Validate dates if provided *)
      let start := update_start body in
      let end_ := update_end body in
      if match start, end_ with
         | Some start, Some e => date_leb e start
         | _, _ => false
         end then
        ret (Error 400 "End date must be after start date")
      else
        (* Build update object *)
        match start, end_ with
        | Some Invalid, _ | _, Some Invalid =>
          ret (Error 500 "Internal server error")
        | _, _ =>
          let start := match start with Some (Valid s) => Some s | _ => None end in
          let end_ := match end_ with Some (Valid e) => Some e | _ => None end in
          match event_update body start end_ with
          | None =>
            issue q_update t_events;;
            ret (Error 500 "Failed to update event")
          | Some updateData =>
            let* updated :=
              update_events (fun e => Event.eventID e = id) updateData in
            match single updated with
            | None => ret (Error 500 "Failed to update event")
            | Some event =>
              ret (Json 200 (mkEventReply "Event updated successfully" event))
            end
          end
        end
  end.

(** DELETE /api/events/:id (events.ts, lines 274-305), behind
    [requireRole(['IR_ADMIN'])]. *)
Definition delete_events (id : string) : M (Reply string) :=
  (* Check if event exists *)
  let* existingEvent := select_events (fun e => Event.eventID e = id) in
  match single existingEvent with
  | None => ret (Error 404 "Event not found")
  | Some _ =>
    delete_events_where (fun e => Event.eventID e = id);;
    ret (Json 200 "Event deleted successfully")
  end.

(** ** What the calendar queries select *)

(** The events the calendar grid is built from: those starting within
    [start, stop] that pass the filters of the query, by start date, each
    with all its RSVPs. *)
Definition calendar_events (d : Db) (q : CalendarQuery.t) (start stop : Z)
  : list EventView.t :=
  embed d (fun _ => True)
  <$> merge_sort by_startDate
        (filter (fun e => start <= Event.startDate e
                          ∧ Event.startDate e <= stop
                          ∧ eq_if_given (CalendarQuery.gicsSector q)
                                        (Event.gicsSector e)
                          ∧ eq_if_given (CalendarQuery.eventType q)
                                        (Some (Event.eventType e))
                          ∧ in_if_given (CalendarQuery.followedCompanies q)
                                        (Event.tickerSymbol e))
                (events d)).


(** ** Requests

    The requests of the routes modelled here, and the store a request leaves
    behind. *)

Inductive Request :=
| PostRsvp (userID : string) (eventID status : option string)
| GetRsvpUser (requestingUser role userID : string)
| GetRsvpEvent (eventID : string) (status : option string)
| DeleteRsvp (userID eventID : string)
| GetSubscriptions (userID : string) (status : option string)
| PostSubscriptions (userID : string) (gicsSector gicsSubCategory : option string)
    (subEnd : option Date)
| PutSubscriptions (userID id : string) (body : SubscriptionUpdate.t)
| DeleteSubscriptions (userID id : string)
| GetSectors
| GetEvent (id : string)
| PostEvents (body : EventBody.t)
| PutEvents (id : string) (body : EventUpdate.t)
| DeleteEvents (id : string)
| GetCalendar (userID : string) (q : CalendarQuery.t)
| GetCalendarWeek (userID : string) (date : option Date).

Definition after {A} (m : M A) (d : Db) : Db := store (run m d).2.

Definition serve (r : Request) : Db -> Db :=
  match r with
  | PostRsvp userID eventID status => after (post_rsvp userID eventID status)
  | GetRsvpUser requestingUser role userID =>
      after (get_rsvp_user requestingUser role userID)
  | GetRsvpEvent eventID status => after (get_rsvp_event eventID status)
  | DeleteRsvp userID eventID => after (delete_rsvp userID eventID)
  | GetSubscriptions userID status => after (get_subscriptions userID status)
  | PostSubscriptions userID gicsSector gicsSubCategory subEnd =>
      after (post_subscriptions userID gicsSector gicsSubCategory subEnd)
  | PutSubscriptions userID id body => after (put_subscriptions userID id body)
  | DeleteSubscriptions userID id => after (delete_subscriptions userID id)
  | GetSectors => after get_sectors
  | GetEvent id => after (get_event id)
  | PostEvents body => after (post_events body)
  | PutEvents id body => after (put_events id body)
  | DeleteEvents id => after (delete_events id)
  | GetCalendar userID q => after (get_calendar userID q)
  | GetCalendarWeek userID date => after (get_calendar_week userID date)
  end.

(** The table a request's route is about, for the routes that write. *)
Definition written (r : Request) : option Table :=
  match r with
  | PostRsvp _ _ _ | DeleteRsvp _ _ => Some t_rsvps
  | PostSubscriptions _ _ _ _ | PutSubscriptions _ _ _
  | DeleteSubscriptions _ _ => Some t_subscriptions
  | PostEvents _ | PutEvents _ _ | DeleteEvents _ => Some t_events
  | _ => None
  end.

(** [d'] differs from [d] in table [t] at most (and in the counter of the
    generated keys); without a table, not at all. *)
Definition unchanged_but (t : option Table) (d d' : Db) : Prop :=
  gics_companies d' = gics_companies d
  ∧ now d' = now d
  ∧ (t ≠ Some t_events → events d' = events d)
  ∧ (t ≠ Some t_rsvps → rsvps d' = rsvps d)
  ∧ (t ≠ Some t_subscriptions → subscriptions d' = subscriptions d)
  ∧ (t = None → d' = d).

(** A computation that writes to table [t] at most, from any world. *)
Definition writes_only {A} (t : option Table) (m : M A) : Prop :=
  ∀ w, unchanged_but t (store w) (store (m w).2).

(** ** Vocabulary of the specification *)

(** A column is a primary key of a table when no two rows share its value. *)
Definition primary_key {A K} (key : A -> K) (table : list A) : Prop :=
  NoDup (key <$> table).

(** At most one RSVP per (user, event): the uniqueness the upsert keeps. *)
Definition rsvp_unique (d : Db) : Prop :=
  primary_key (fun r => (Rsvp.userID r, Rsvp.eventID r)) (rsvps d).

(** The axis entry of a calendar day, given by its day number. *)
Definition iso_of_day (day : Z) : string := toISODate (day * msPerDay).

(** How often the loop of the date axis runs. *)
Definition steps (start stop : Z) : Z :=
  if decide (start <= stop) then (stop - start) / msPerDay + 1 else 0.

(** The stores reached from one without RSVPs by the handlers that write,
    one request after the other. *)
Inductive reachable : Db -> Prop :=
| reach_start d : rsvps d = [] → reachable d
| reach_post_rsvp d userID eventID status :
    reachable d →
    reachable (store (run (post_rsvp userID eventID status) d).2)
| reach_delete_rsvp d userID eventID :
    reachable d →
    reachable (store (run (delete_rsvp userID eventID) d).2)
| reach_post_subscriptions d userID sector category subEnd :
    reachable d →
    reachable (store (run (post_subscriptions userID sector category subEnd) d).2)
| reach_put_subscriptions d userID id body :
    reachable d →
    reachable (store (run (put_subscriptions userID id body) d).2)
| reach_post_events d body :
    reachable d →
    reachable (store (run (post_events body) d).2).

(** What is filed under a sector. *)
Definition filed (m : list (string * list string)) (k x : string) : Prop :=
  ∃ set, (k, set) ∈ m ∧ x ∈ set.

(** The time value of a date an update can store. *)
Definition stored (date : option Date) : option Z :=
  match date with
  | Some (Valid t) => Some t
  | _ => None
  end.

(** The body that sets the status and nothing else. *)
Definition set_status_only (status : string) : SubscriptionUpdate.t :=
  SubscriptionUpdate.mk None None None (Some (Some status)).

(** ** Sample data *)

Definition earnings : Event.row :=
  Event.mk "e1" "Q1 Earnings" (Some "ACME") (Some "Industrials") None
    "EARNINGS_CALL" None None None (utc 2024 4 10 14 0 0) None None.

Definition roadshow : Event.row :=
  Event.mk "e2" "Spring Roadshow" (Some "BOLT") (Some "Technology") None
    "ROADSHOW" None None None (utc 2024 3 3 10 0 0) None None.

Definition sample_db : Db :=
  mkDb [earnings; roadshow]
       [Rsvp.mk "r1" "analyst" "e2" "ACCEPTED" (utc 2024 2 1 9 0 0)]
       [Subscription.mk "s1" "manager" "Energy" None (utc 2024 1 1 0 0 0) None
          "ACTIVE" (utc 2024 1 1 0 0 0)]
       [Company.mk "BOLT" "Bolt Inc" "Technology" "Software";
        Company.mk "ACME" "Acme Corp" "Industrials" "Machinery"]
       0 (utc 2024 3 6 15 0 0).

Definition briefing : Event.row :=
  Event.mk "e3" "Analyst Briefing" (Some "ACME") (Some "Industrials") None
    "ANALYST_DAY" None None None (utc 2024 3 4 9 0 0) None None.

Definition briefing_db : Db :=
  mkDb [briefing]
       [Rsvp.mk "r2" "analyst" "e3" "ACCEPTED" (utc 2024 2 1 9 0 0)]
       [] [] 0 (utc 2024 3 6 15 0 0).

Definition between (start stop : Z) : CalendarQuery.t :=
  CalendarQuery.mk (Some (Valid start)) (Some (Valid stop)) None None None.

Definition ends_before_it_starts : EventBody.t :=
  EventBody.mk (Some "Q1 Earnings") (Some "ACME") None None
    (Some "EARNINGS_CALL") None None None
    (Some (Valid (utc 2024 4 10 14 0 0))) (Some (Valid (utc 2024 4 10 13 0 0)))
    None.

(** Two RSVPs of the analyst for the roadshow, as a table without a unique
    index could hold them. *)
Definition doubled_db : Db :=
  set_rsvps sample_db
    [Rsvp.mk "r1" "analyst" "e2" "ACCEPTED" (utc 2024 2 1 9 0 0);
     Rsvp.mk "r3" "analyst" "e2" "DECLINED" (utc 2024 2 2 9 0 0)].

Definition investor_day : EventBody.t :=
  EventBody.mk (Some "Investor Day") (Some "ACME") (Some "") None
    (Some "INVESTOR_MEETING") None None None
    (Some (Valid (utc 2024 5 2 9 0 0))) (Some (Valid (utc 2024 5 2 17 0 0)))
    None.

Definition conference : Event.row :=
  Event.mk "e4" "Tech Conference" (Some "BOLT") (Some "Technology") None
    "CONFERENCE" None None None (utc 2024 6 3 9 0 0)
    (Some (utc 2024 6 5 17 0 0)) None.

Definition conference_db : Db := set_events sample_db [conference].

(** Update bodies that send one date and nothing else. *)
Definition only_start (start : Date) : EventUpdate.t :=
  EventUpdate.mk None None None None None None None None
    (Some (Some start)) None None.

Definition only_end (finish : Date) : EventUpdate.t :=
  EventUpdate.mk None None None None None None None None
    None (Some (Some finish)) None.

(** * Properties *)

(** ** Facts on lists *)

Section list_facts.
Context {A : Type} (P : A -> Prop) `{!∀ x, Decision (P x)}.

Lemma filter_none (l : list A) :
  (∀ x, x ∈ l → ¬ P x) → filter P l = [].
Proof.
  induction l as [|a l IH]; intros Hall; [done|].
  rewrite filter_cons_False by (apply Hall; left).
  apply IH. intros x Hx. apply Hall. by right.
Qed.

Lemma filter_all (l : list A) :
  (∀ x, x ∈ l → P x) → filter P l = l.
Proof.
  induction l as [|a l IH]; intros Hall; [done|].
  rewrite filter_cons_True by (apply Hall; left).
  f_equal. apply IH. intros x Hx. apply Hall. by right.
Qed.

Lemma fmap_unmatched (f : A -> A) (l : list A) :
  (∀ x, x ∈ l → ¬ P x) →
  (fun r => if decide (P r) then f r else r) <$> l = l.
Proof.
  induction l as [|a l IH]; intros Hall; [done|].
  rewrite fmap_cons, IH by (intros x Hx; apply Hall; by right).
  destruct (decide (P a)) as [Ha|]; [|done].
  exfalso. apply (Hall a); [left|done].
Qed.
End list_facts.

Lemma filter_key {A K} `{EqDecision K} (key : A -> K) (l : list A) (x : A) :
  NoDup (key <$> l) → x ∈ l → filter (fun y => key y = key x) l = [x].
Proof.
  induction l as [|a l IH]; intros Hnd Hx; [by apply elem_of_nil in Hx|].
  rewrite fmap_cons in Hnd. apply NoDup_cons in Hnd as [Ha Hnd].
  apply elem_of_cons in Hx as [->|Hx].
  - rewrite filter_cons_True by done. f_equal.
    apply filter_none. intros y Hy Heq. apply Ha. rewrite <- Heq.
    by apply list_elem_of_fmap_2.
  - rewrite filter_cons_False; [by apply IH|].
    intros Heq. apply Ha. rewrite Heq. by apply list_elem_of_fmap_2.
Qed.

(** ** Properties of routes/rsvp.ts *)

Lemma truthy_Some (s : string) : s ≠ "" → truthy (Some s) = Some s.
Proof. intros Hs. unfold truthy. by case_decide. Qed.

Lemma valid_status_truthy (s : string) :
  s ∈ validStatuses → truthy (Some s) = Some s.
Proof.
  intros Hs. apply truthy_Some. intros ->. revert Hs.
  apply (bool_decide_unpack _). by vm_compute.
Qed.

Lemma event_found (d : Db) (eventID : string) :
  primary_key Event.eventID (events d) →
  (∃ ev, ev ∈ events d ∧ Event.eventID ev = eventID) →
  ∃ ev, filter (fun x => Event.eventID x = eventID) (events d) = [ev].
Proof.
  intros Hkey (ev & Hin & <-). exists ev. by apply filter_key.
Qed.

(** Unfolds the store primitives a handler is made of. *)
Ltac store_steps :=
  unfold run, select_events, select_rsvps, select_rsvps_ordered,
    select_subscriptions, select_companies_ordered, select_events_embedded,
    update_rsvps, insert_rsvp, delete_rsvps, insert_subscription,
    update_subscriptions, insert_event, clock, bind, issue, get_db, put_db,
    ret;
  cbn [store calls fst snd app].

(** The create path of the upsert. *)
Lemma post_rsvp_creates (d : Db) (userID eventID status : string) :
  eventID ≠ "" → status ∈ validStatuses →
  primary_key Event.eventID (events d) →
  (∃ ev, ev ∈ events d ∧ Event.eventID ev = eventID) →
  (∀ r, r ∈ rsvps d → ¬ addressed userID eventID r) →
  let r := Rsvp.mk (gen_id (next_id d)) userID eventID status (now d) in
  run (post_rsvp userID (Some eventID) (Some status)) d
  = (Json 200 (mkRsvpReply "RSVP created successfully" r),
     mkWorld (bump (set_rsvps d (rsvps d ++ [r])))
             [(q_select, t_events); (q_select, t_rsvps); (q_insert, t_rsvps)]).
Proof.
  intros He Hs Hkey Hev Hnone r.
  destruct (event_found d eventID Hkey Hev) as [ev Hfound].
  unfold run, post_rsvp.
  rewrite (truthy_Some eventID He), (valid_status_truthy status Hs).
  rewrite decide_True by done.
  store_steps. rewrite Hfound. cbn [single store calls app].
  rewrite (filter_none _ (rsvps d)) by exact Hnone.
  reflexivity.
Qed.

(** The update path of the upsert. *)
Lemma post_rsvp_updates (d : Db) (userID eventID status : string)
    (old : Rsvp.row) :
  eventID ≠ "" → status ∈ validStatuses →
  primary_key Event.eventID (events d) →
  (∃ ev, ev ∈ events d ∧ Event.eventID ev = eventID) →
  filter (addressed userID eventID) (rsvps d) = [old] →
  run (post_rsvp userID (Some eventID) (Some status)) d
  = (Json 200 (mkRsvpReply "RSVP updated successfully" (set_status status old)),
     mkWorld (set_rsvps d
                ((fun r => if decide (addressed userID eventID r)
                           then set_status status r else r) <$> rsvps d))
             [(q_select, t_events); (q_select, t_rsvps); (q_update, t_rsvps)]).
Proof.
  intros He Hs Hkey Hev Hone.
  destruct (event_found d eventID Hkey Hev) as [ev Hfound].
  unfold run, post_rsvp.
  rewrite (truthy_Some eventID He), (valid_status_truthy status Hs).
  rewrite decide_True by done.
  store_steps. rewrite Hfound. cbn [single store calls app].
  rewrite Hone. cbn [single store calls app]. rewrite Hone. reflexivity.
Qed.

(** C1: from a store that holds no RSVP for (userID, eventID) yet, two
    upserts in a row, with s1 and then s2, report "created" and then
    "updated" and leave exactly one RSVP for the pair, whose status is s2;
    all other RSVPs are kept, and the store ends up the same as after
    creating the RSVP with s2 directly. *)
Theorem rsvp_upsert_twice (d : Db) (userID eventID s1 s2 : string) :
  eventID ≠ "" →
  s1 ∈ validStatuses → s2 ∈ validStatuses →
  primary_key Event.eventID (events d) →
  (∃ ev, ev ∈ events d ∧ Event.eventID ev = eventID) →
  (∀ r, r ∈ rsvps d → ¬ addressed userID eventID r) →
  ∃ r1 w1 r2 w2,
    run (post_rsvp userID (Some eventID) (Some s1)) d
    = (Json 200 (mkRsvpReply "RSVP created successfully" r1), w1)
    ∧ run (post_rsvp userID (Some eventID) (Some s2)) (store w1)
      = (Json 200 (mkRsvpReply "RSVP updated successfully" r2), w2)
    ∧ filter (addressed userID eventID) (rsvps (store w2)) = [r2]
    ∧ addressed userID eventID r2
    ∧ Rsvp.status r2 = s2
    ∧ filter (fun r => ¬ addressed userID eventID r) (rsvps (store w2))
      = rsvps d
    ∧ store w2
      = store (run (post_rsvp userID (Some eventID) (Some s2)) d).2.
Proof.
  intros He Hs1 Hs2 Hkey Hev Hnone.
  set (r1 := Rsvp.mk (gen_id (next_id d)) userID eventID s1 (now d)).
  set (d1 := bump (set_rsvps d (rsvps d ++ [r1]))).
  assert (Hone : filter (addressed userID eventID) (rsvps d1) = [r1]).
  { cbn. rewrite filter_app, (filter_none _ (rsvps d)) by exact Hnone.
    by rewrite filter_cons_True by done. }
  assert (Hmap : (fun r => if decide (addressed userID eventID r)
                           then set_status s2 r else r) <$> rsvps d1
                 = rsvps d ++ [set_status s2 r1]).
  { cbn. rewrite fmap_app, fmap_unmatched by exact Hnone.
    cbn. by rewrite decide_True by done. }
  eexists r1, _, (set_status s2 r1), _.
  split; [by apply post_rsvp_creates|].
  split; [by apply (post_rsvp_updates d1)|].
  cbn [store]. rewrite post_rsvp_creates by done. cbn [snd store].
  rewrite Hmap. unfold set_rsvps. cbn [rsvps].
  repeat split.
  - rewrite filter_app, (filter_none _ (rsvps d)) by exact Hnone.
    by rewrite filter_cons_True by done.
  - rewrite filter_app, filter_all by exact Hnone.
    rewrite filter_cons_False; [by rewrite app_nil_r|].
    intros Hno. by apply Hno.
Qed.

Lemma addressed_key (userID eventID : string) (r x : Rsvp.row) :
  addressed userID eventID r →
  addressed userID eventID x
  ↔ (Rsvp.userID x, Rsvp.eventID x) = (Rsvp.userID r, Rsvp.eventID r).
Proof.
  unfold addressed. intros [-> ->].
  split; [by intros [-> ->]|by intros [= -> ->]].
Qed.

Lemma filter_ext_in {A} (P Q : A -> Prop) `{!∀ x, Decision (P x)}
    `{!∀ x, Decision (Q x)} (l : list A) :
  (∀ x, x ∈ l → P x ↔ Q x) → filter P l = filter Q l.
Proof.
  induction l as [|a l IH]; intros Hext; [done|].
  rewrite !filter_cons, IH by (intros x Hx; apply Hext; by right).
  destruct (decide (P a)) as [Hp|Hp], (decide (Q a)) as [Hq|Hq]; try done.
  - exfalso. apply Hq, (Hext a); [left|done].
  - exfalso. apply Hp, (Hext a); [left|done].
Qed.

Lemma addressed_only (d : Db) (userID eventID : string) (r : Rsvp.row) :
  rsvp_unique d → r ∈ rsvps d → addressed userID eventID r →
  filter (addressed userID eventID) (rsvps d) = [r]
  ∧ filter (fun x => ¬ addressed userID eventID x) (rsvps d)
    = filter (fun x => x ≠ r) (rsvps d).
Proof.
  intros Huniq Hin Hr.
  assert (Hone : filter (addressed userID eventID) (rsvps d) = [r]).
  { rewrite <- (filter_key (fun r => (Rsvp.userID r, Rsvp.eventID r))
                           (rsvps d) r Huniq Hin).
    apply filter_ext_in. intros x _. by apply addressed_key. }
  split; [done|].
  apply filter_ext_in. intros x Hx. split.
  - intros Hno ->. by apply Hno.
  - intros Hne Hax. apply Hne.
    assert (x ∈ filter (addressed userID eventID) (rsvps d)) as Hmem
      by (by apply list_elem_of_filter).
    rewrite Hone in Hmem. by apply list_elem_of_singleton in Hmem.
Qed.

Lemma delete_rsvp_missing (d : Db) (userID eventID : string) :
  (∀ r, r ∈ rsvps d → ¬ addressed userID eventID r) →
  run (delete_rsvp userID eventID) d
  = (Error 404 "RSVP not found", mkWorld d [(q_select, t_rsvps)]).
Proof.
  intros Hnone. unfold delete_rsvp. store_steps.
  by rewrite (filter_none _ (rsvps d)) by exact Hnone.
Qed.

(** C7: deleting an RSVP that does not exist answers 404 and leaves the
    store as it was; in a store with at most one RSVP per (user, event),
    deleting the RSVP stored for (userID, eventID) answers 200 and removes
    that row and no other, after which a second delete answers 404 and
    changes nothing. *)
Theorem rsvp_delete (d : Db) (userID eventID : string) :
  ((∀ r, r ∈ rsvps d → ¬ addressed userID eventID r) →
   ∃ w, run (delete_rsvp userID eventID) d = (Error 404 "RSVP not found", w)
        ∧ store w = d)
  ∧ (rsvp_unique d →
     ∀ r, r ∈ rsvps d → addressed userID eventID r →
     ∃ w1 w2,
       run (delete_rsvp userID eventID) d
       = (Json 200 "RSVP deleted successfully", w1)
       ∧ store w1 = set_rsvps d (filter (fun x => x ≠ r) (rsvps d))
       ∧ (r ∉ rsvps (store w1))
       ∧ run (delete_rsvp userID eventID) (store w1)
         = (Error 404 "RSVP not found", w2)
       ∧ store w2 = store w1).
Proof.
  split.
  - intros Hnone. eexists. by rewrite delete_rsvp_missing.
  - intros Huniq r Hin Hr.
    destruct (addressed_only d userID eventID r Huniq Hin Hr) as [Hone Hrest].
    set (d1 := set_rsvps d (filter (fun x => x ≠ r) (rsvps d))).
    assert (Hgone : ∀ x, x ∈ rsvps d1 → ¬ addressed userID eventID x).
    { intros x Hx. cbn in Hx. rewrite <- Hrest in Hx.
      by apply list_elem_of_filter in Hx as [? _]. }
    exists (mkWorld d1 [(q_select, t_rsvps); (q_delete, t_rsvps)]),
           (mkWorld d1 [(q_select, t_rsvps)]).
    split; [|split; [done|split]].
    + unfold delete_rsvp. store_steps. rewrite Hone. cbn [single store calls app].
      by rewrite Hrest.
    + cbn. rewrite list_elem_of_filter. by intros [? _].
    + split; [|done]. by apply delete_rsvp_missing.
Qed.

(** C9: a request whose eventID or status is missing, or whose status is
    not a valid one, is answered 400 without any store call and whatever the
    store holds; a 404 is only ever answered to a request that passed this
    validation. *)
Theorem rsvp_validation_first (userID : string) (eventID status : option string)
    (w : World) :
  (truthy eventID = None ∨ truthy status = None
   ∨ (∃ s, status = Some s ∧ s ∉ validStatuses) →
   ∃ msg, post_rsvp userID eventID status w = (Error 400 msg, w))
  ∧ (code_of (post_rsvp userID eventID status w).1 = 404%nat →
     ∃ e s, truthy eventID = Some e ∧ truthy status = Some s
            ∧ s ∈ validStatuses).
Proof.
  unfold post_rsvp. split.
  - intros Hbad.
    destruct (truthy eventID) as [e|] eqn:He; [|by eexists; destruct (truthy status)].
    destruct (truthy status) as [s|] eqn:Hs; [|by eexists].
    destruct Hbad as [?|[?|(s' & -> & Hs')]]; [done..|].
    assert (s = s') as ->.
    { unfold truthy in Hs. by case_decide; simplify_eq. }
    rewrite decide_False by done. by eexists.
  - destruct (truthy eventID) as [e|]; [|by destruct (truthy status)].
    destruct (truthy status) as [s|]; [|done].
    case_decide; [by eauto|done].
Qed.

(** *** The upsert and the delete keep one RSVP per (user, event) *)

Lemma addressed_at_most_once (d : Db) (userID eventID : string) :
  rsvp_unique d →
  filter (addressed userID eventID) (rsvps d) = []
  ∨ ∃ r, filter (addressed userID eventID) (rsvps d) = [r].
Proof.
  intros Huniq.
  destruct (filter (addressed userID eventID) (rsvps d)) as [|r rest] eqn:Hf;
    [by left|right].
  assert (r ∈ filter (addressed userID eventID) (rsvps d)) as Hr
    by (rewrite Hf; left).
  apply list_elem_of_filter in Hr as [Hr Hin].
  destruct (addressed_only d userID eventID r Huniq Hin Hr) as [Hone _].
  exists r. by rewrite <- Hf.
Qed.

Lemma rsvp_unique_post (d : Db) (userID : string) (eventID status : option string) :
  rsvp_unique d →
  rsvp_unique (store (run (post_rsvp userID eventID status) d).2).
Proof.
  intros Huniq. unfold post_rsvp.
  destruct (truthy eventID) as [e|]; [|by destruct (truthy status)].
  destruct (truthy status) as [s|]; [|done].
  case_decide; [|done]. store_steps.
  destruct (single _) as [ev|]; [|done]. cbn [store calls app].
  destruct (addressed_at_most_once d userID e Huniq) as [Hnone|[r Hone]].
  - rewrite Hnone. cbn [single store snd]. unfold rsvp_unique, primary_key.
    cbn [rsvps bump set_rsvps]. rewrite fmap_app. apply NoDup_app.
    split; [done|]. split; [|apply NoDup_singleton].
    intros key Hkey Hnew. apply list_elem_of_singleton in Hnew as ->.
    apply list_elem_of_fmap in Hkey as (x & [= Hu He] & Hx).
    assert (x ∈ filter (addressed userID e) (rsvps d)) as Hmem
      by (by apply list_elem_of_filter).
    rewrite Hnone in Hmem. by apply elem_of_nil in Hmem.
  - rewrite Hone. cbn [single store calls app]. rewrite Hone.
    cbn [fmap list_fmap single store snd].
    unfold rsvp_unique, primary_key. cbn [rsvps set_rsvps].
    rewrite <- list_fmap_compose.
    erewrite list_fmap_ext; [exact Huniq|].
    intros _ x _. cbn. by case_decide.
Qed.

Lemma rsvp_unique_delete (d : Db) (userID eventID : string) :
  rsvp_unique d →
  rsvp_unique (store (run (delete_rsvp userID eventID) d).2).
Proof.
  intros Huniq. unfold delete_rsvp. store_steps.
  destruct (single _) as [found|]; [|done]. cbn [store snd].
  unfold rsvp_unique, primary_key. cbn [rsvps set_rsvps].
  eapply sublist_NoDup; [exact Huniq|].
  apply fmap_sublist, sublist_filter.
Qed.

(** One upsert on a store with at most one RSVP per pair: the reply is 200
    and the store then holds exactly one RSVP for the pair, with the status
    asked for. *)
Lemma post_rsvp_sets_status (d : Db) (userID eventID status : string) :
  eventID ≠ "" → status ∈ validStatuses →
  primary_key Event.eventID (events d) →
  (∃ ev, ev ∈ events d ∧ Event.eventID ev = eventID) →
  rsvp_unique d →
  ∃ reply w,
    run (post_rsvp userID (Some eventID) (Some status)) d = (Json 200 reply, w)
    ∧ filter (addressed userID eventID) (rsvps (store w)) = [rsvp reply]
    ∧ Rsvp.status (rsvp reply) = status
    ∧ events (store w) = events d.
Proof.
  intros He Hs Hkey Hev Huniq.
  destruct (addressed_at_most_once d userID eventID Huniq) as [Hnone|[r Hone]].
  - eexists _, _. rewrite post_rsvp_creates; try done.
    + split; [reflexivity|]. cbn. rewrite filter_app, Hnone.
      by rewrite filter_cons_True by done.
    + intros x Hx Hax.
      assert (x ∈ filter (addressed userID eventID) (rsvps d)) as Hmem
        by (by apply list_elem_of_filter).
      rewrite Hnone in Hmem. by apply elem_of_nil in Hmem.
  - eexists _, _. rewrite (post_rsvp_updates d _ _ _ r) by done.
    split; [reflexivity|]. cbn. split; [|done].
    assert (r ∈ filter (addressed userID eventID) (rsvps d)) as Hr
      by (rewrite Hone; left).
    apply list_elem_of_filter in Hr as [Hr Hin].
    change [set_status status r] with (set_status status <$> [r]).
    rewrite <- Hone. clear.
    induction (rsvps d) as [|x l IH]; [done|].
    rewrite fmap_cons, !filter_cons.
    destruct (decide (addressed userID eventID x)) as [Hx|Hx].
    + rewrite decide_True by (destruct Hx; by split).
      by rewrite fmap_cons, IH.
    + by rewrite decide_False.
Qed.

(** X2: Whether or not an RSVP was stored before, after two upserts the pair has
    exactly one RSVP, with the status of the last call. *)
Lemma rsvp_upsert_last_wins (d : Db) (userID eventID s1 s2 : string) :
  eventID ≠ "" → s1 ∈ validStatuses → s2 ∈ validStatuses →
  primary_key Event.eventID (events d) →
  (∃ ev, ev ∈ events d ∧ Event.eventID ev = eventID) →
  rsvp_unique d →
  ∃ reply1 w1 reply2 w2,
    run (post_rsvp userID (Some eventID) (Some s1)) d = (Json 200 reply1, w1)
    ∧ run (post_rsvp userID (Some eventID) (Some s2)) (store w1)
      = (Json 200 reply2, w2)
    ∧ filter (addressed userID eventID) (rsvps (store w2)) = [rsvp reply2]
    ∧ Rsvp.status (rsvp reply2) = s2.
Proof.
  intros He Hs1 Hs2 Hkey Hev Huniq.
  destruct (post_rsvp_sets_status d userID eventID s1 He Hs1 Hkey Hev Huniq)
    as (reply1 & w1 & Hrun1 & _ & _ & Hevents).
  assert (Huniq1 : rsvp_unique (store w1)).
  { pose proof (rsvp_unique_post d userID (Some eventID) (Some s1) Huniq) as H1.
    by rewrite Hrun1 in H1. }
  destruct (post_rsvp_sets_status (store w1) userID eventID s2 He Hs2)
    as (reply2 & w2 & Hrun2 & Hone & Hstatus & _); try done.
  - by rewrite Hevents.
  - by rewrite Hevents.
  - by exists reply1, w1, reply2, w2.
Qed.

(** X3: With two RSVPs stored for the pair the lookup fails as it does for
    none: the delete answers 404 and removes nothing. *)
Lemma delete_rsvp_duplicated (d : Db) (userID eventID : string)
    (r1 r2 : Rsvp.row) (rest : list Rsvp.row) :
  filter (addressed userID eventID) (rsvps d) = r1 :: r2 :: rest →
  run (delete_rsvp userID eventID) d
  = (Error 404 "RSVP not found", mkWorld d [(q_select, t_rsvps)]).
Proof. intros Hdup. unfold delete_rsvp. store_steps. by rewrite Hdup. Qed.

(** *** Grouping by status *)

Lemma push_at_lookup {A} (k k' : string) (x : A) (acc : gmap string (list A)) :
  push_at k x acc !! k'
  = if decide (k = k') then Some (default [] (acc !! k) ++ [x]) else acc !! k'.
Proof.
  unfold push_at. case_decide as Hk.
  - subst k'. rewrite lookup_alter_eq.
    destruct (acc !! k) as [b|] eqn:Hb; [by rewrite Hb|].
    by rewrite lookup_insert_eq.
  - rewrite lookup_alter_ne by done.
    destruct (acc !! k); [done|]. by rewrite lookup_insert_ne.
Qed.

(** What the reduce leaves under key [k]: the rows of status [k], in the
    order of the list, appended to what the accumulator held. *)
Lemma group_lookup (l : list Rsvp.row) (acc : gmap string (list Rsvp.row))
    (k : string) :
  foldl (fun acc rsvp => push_at (Rsvp.status rsvp) rsvp acc) acc l !! k
  = match acc !! k, filter (fun r => Rsvp.status r = k) l with
    | None, [] => None
    | b, rows => Some (default [] b ++ rows)
    end.
Proof.
  revert acc. induction l as [|r l IH]; intros acc.
  - cbn. destruct (acc !! k); [by rewrite app_nil_r|done].
  - cbn [foldl]. rewrite IH, push_at_lookup, filter_cons.
    destruct (decide (Rsvp.status r = k)) as [Heq|Hne].
    + subst k. destruct (acc !! Rsvp.status r) as [b|]; cbn;
        [by rewrite <- app_assoc|done].
    + done.
Qed.

Lemma bucket_size_group (l : list Rsvp.row) (k : string) :
  bucket_size (foldl (fun acc rsvp => push_at (Rsvp.status rsvp) rsvp acc) ∅ l) k
  = length (filter (fun r => Rsvp.status r = k) l).
Proof.
  unfold bucket_size. rewrite group_lookup, lookup_empty.
  by destruct (filter _ l).
Qed.

Lemma count_by_status (l : list Rsvp.row) :
  (∀ r, r ∈ l → Rsvp.status r ∈ validStatuses) →
  length l
  = (length (filter (fun r => Rsvp.status r = "ACCEPTED") l)
     + length (filter (fun r => Rsvp.status r = "DECLINED") l)
     + length (filter (fun r => Rsvp.status r = "TENTATIVE") l)
     + length (filter (fun r => Rsvp.status r = "PENDING") l))%nat.
Proof.
  induction l as [|r l IH]; intros Hvalid; [done|].
  specialize (IH (fun x Hx => Hvalid x (list_elem_of_further _ _ _ Hx))).
  pose proof (Hvalid r (list_elem_of_here _ _)) as Hr.
  unfold validStatuses in Hr. rewrite !filter_cons.
  repeat (apply elem_of_cons in Hr as [->|Hr];
          [repeat case_decide; try done; cbn [length]; lia|]).
  by apply elem_of_nil in Hr.
Qed.

(** C10: in the listing of an event's RSVPs, the bucket of a status holds
    exactly the returned RSVPs of that status, so each returned RSVP sits in
    one bucket and one only; each statistic is the size of its bucket, and
    when every status stored for the event is valid the total is the sum of
    the four. *)
Theorem rsvp_event_statistics (d : Db) (eventID : string)
    (status : option string) :
  ∃ body w,
    run (get_rsvp_event eventID status) d = (Json 200 body, w)
    ∧ (∀ k, default [] (rsvpsByStatus body !! k)
            = filter (fun r => Rsvp.status r = k) (listed body))
    ∧ (∀ r, r ∈ listed body →
            ∀ k, (∃ b, rsvpsByStatus body !! k = Some b ∧ r ∈ b)
                 ↔ k = Rsvp.status r)
    ∧ total (rsvp_statistics body) = length (listed body)
    ∧ accepted (rsvp_statistics body)
      = length (default [] (rsvpsByStatus body !! "ACCEPTED"))
    ∧ declined (rsvp_statistics body)
      = length (default [] (rsvpsByStatus body !! "DECLINED"))
    ∧ tentative (rsvp_statistics body)
      = length (default [] (rsvpsByStatus body !! "TENTATIVE"))
    ∧ pending (rsvp_statistics body)
      = length (default [] (rsvpsByStatus body !! "PENDING"))
    ∧ ((∀ r, r ∈ rsvps d → Rsvp.eventID r = eventID →
             Rsvp.status r ∈ validStatuses) →
       total (rsvp_statistics body)
       = (accepted (rsvp_statistics body) + declined (rsvp_statistics body)
          + tentative (rsvp_statistics body)
          + pending (rsvp_statistics body))%nat).
Proof.
  unfold get_rsvp_event. store_steps.
  set (l := merge_sort by_createdAt_desc _).
  set (m := foldl _ ∅ l).
  assert (Hbucket : ∀ k, default [] (m !! k)
                         = filter (fun r => Rsvp.status r = k) l).
  { intros k. unfold m. rewrite group_lookup, lookup_empty.
    by destruct (filter _ l). }
  assert (Hsize : ∀ k, bucket_size m k = length (default [] (m !! k))).
  { intros k. unfold bucket_size. by destruct (m !! k). }
  eexists _, _. split; [reflexivity|]. cbn.
  split; [exact Hbucket|]. split; [|rewrite !Hsize; repeat split].
  - intros r Hr k. split.
    + intros (b & Hb & Hin). specialize (Hbucket k). rewrite Hb in Hbucket.
      cbn in Hbucket. rewrite Hbucket in Hin.
      by apply list_elem_of_filter in Hin as [-> _].
    + intros ->. specialize (Hbucket (Rsvp.status r)).
      destruct (m !! Rsvp.status r) as [b|]; cbn in Hbucket.
      * exists b. split; [done|]. rewrite Hbucket.
        by apply list_elem_of_filter.
      * exfalso. assert (r ∈ filter (fun x => Rsvp.status x = Rsvp.status r) l)
          as Hin by (by apply list_elem_of_filter).
        rewrite <- Hbucket in Hin. by apply elem_of_nil in Hin.
  - intros Hvalid. rewrite !Hbucket. apply count_by_status.
    intros r Hr. unfold l in Hr. rewrite merge_sort_Permutation in Hr.
    apply list_elem_of_filter in Hr as [[He _] Hr]. by apply Hvalid.
Qed.

(** ** Properties of routes/subscriptions.ts *)

Lemma take_one_empty {A} (l : list A) :
  (0 < length (take 1 l))%nat ↔ l ≠ [].
Proof. destruct l; cbn; [split; [lia|done]|split; [done|lia]]. Qed.


(** Without a matching active subscription the row is inserted. *)
Lemma post_subscriptions_creates (d : Db) (userID sector : string)
    (gicsSubCategory : option string) (subEnd : option Date) :
  sector ≠ "" → subEnd ≠ Some Invalid →
  (∀ s, s ∈ subscriptions d →
        ¬ active_for userID sector (truthy gicsSubCategory) s) →
  let s := Subscription.mk (gen_id (next_id d)) userID sector
             (truthy gicsSubCategory) (now d)
             (match subEnd with Some (Valid t) => Some t | _ => None end)
             "ACTIVE" (now d) in
  run (post_subscriptions userID (Some sector) gicsSubCategory subEnd) d
  = (Json 201 (mkSubscriptionReply "Subscription created successfully" s),
     mkWorld (bump (set_subscriptions d (subscriptions d ++ [s])))
             [(q_select, t_subscriptions); (q_insert, t_subscriptions)]).
Proof.
  intros Hsec Hend Hnone s. unfold post_subscriptions.
  rewrite (truthy_Some sector Hsec). store_steps.
  rewrite (filter_none _ (subscriptions d)) by exact Hnone.
  rewrite decide_False by (cbn; lia).
  by destruct subEnd as [[t|]|].
Qed.

(** A successful create went through the insert. *)
Lemma post_subscriptions_created (d : Db) (userID : string)
    (gicsSector gicsSubCategory : option string) (subEnd : option Date)
    (reply : SubscriptionReply) (w : World) :
  run (post_subscriptions userID gicsSector gicsSubCategory subEnd) d
  = (Json 201 reply, w) →
  ∃ sector,
    gicsSector = Some sector ∧ sector ≠ "" ∧ subEnd ≠ Some Invalid
    ∧ (∀ s, s ∈ subscriptions d →
            ¬ active_for userID sector (truthy gicsSubCategory) s).
Proof.
  unfold post_subscriptions.
  destruct gicsSector as [sector|]; [|done]. unfold truthy at 1.
  case_decide as Hsec; [done|]. store_steps.
  case_decide as Hdup; [done|]. intros Hrun.
  exists sector. repeat split; [done| |].
  - intros ->. done.
  - intros s Hin Hs. apply Hdup, take_one_empty. intros Hnil.
    assert (s ∈ filter (active_for userID sector (truthy gicsSubCategory))
                       (subscriptions d)) as Hmem
      by (by apply list_elem_of_filter).
    rewrite Hnil in Hmem. by apply elem_of_nil in Hmem.
Qed.


(** C8: an update addressed to a subscription stored under another user
    answers 403 (subID being the primary key of the table) and one addressed
    to an id that is not stored answers 404; in both cases the store, and so
    every field of every subscription, is left as it was. *)
Theorem subscription_update_guard (d : Db) (caller id : string)
    (body : SubscriptionUpdate.t) :
  (primary_key Subscription.subID (subscriptions d) →
   ∀ s, s ∈ subscriptions d → Subscription.subID s = id →
        Subscription.userID s ≠ caller →
        ∃ w, run (put_subscriptions caller id body) d
             = (Error 403 "Insufficient permissions", w)
             ∧ store w = d)
  ∧ ((∀ s, s ∈ subscriptions d → Subscription.subID s ≠ id) →
     ∃ w, run (put_subscriptions caller id body) d
          = (Error 404 "Subscription not found", w)
          ∧ store w = d).
Proof.
  split.
  - intros Hkey s Hin <- Hother. unfold put_subscriptions. store_steps.
    rewrite (filter_key Subscription.subID _ s Hkey Hin). cbn [single].
    rewrite decide_True by done. by eexists.
  - intros Hmissing. unfold put_subscriptions. store_steps.
    rewrite (filter_none _ (subscriptions d)); [by eexists|].
    intros s Hin. by apply Hmissing.
Qed.

(** ** Properties of routes/events.ts *)

(** C6: a creation request whose end date is not after its start date is
    answered 400 and reaches the store neither for reading nor for writing;
    a request whose end date is strictly after its start date is not turned
    down by the date check, and with a name and a valid type it is answered
    201 with the event inserted. *)
Theorem event_dates_validated (body : EventBody.t) (start finish : Z)
    (w : World) :
  EventBody.startDate body = Some (Valid start) →
  EventBody.endDate body = Some (Valid finish) →
  (finish <= start → ∃ msg, post_events body w = (Error 400 msg, w))
  ∧ (start < finish →
     (post_events body w).1 ≠ Error 400 "End date must be after start date"
     ∧ ∀ name type,
         truthy (EventBody.eventName body) = Some name →
         truthy (EventBody.eventType body) = Some type →
         type ∈ validEventTypes →
         ∃ reply w',
           post_events body w = (Json 201 reply, w')
           ∧ events (store w') = events (store w) ++ [event reply]
           ∧ Event.startDate (event reply) = start
           ∧ Event.endDate (event reply) = Some finish).
Proof.
  intros Hstart Hend. unfold post_events. rewrite Hstart, Hend.
  cbn [date_leb]. split.
  - intros Hle. rewrite (proj2 (Z.leb_le finish start) Hle).
    destruct (truthy (EventBody.eventName body)); [|by eexists].
    destruct (truthy (EventBody.eventType body)); [|by eexists].
    case_decide; by eexists.
  - intros Hlt. rewrite (proj2 (Z.leb_gt finish start) Hlt). split.
    + destruct (truthy (EventBody.eventName body)); [|done].
      destruct (truthy (EventBody.eventType body)); [|done].
      case_decide; [|done]. store_steps. done.
    + intros name type -> -> Htype. rewrite decide_True by done.
      store_steps. by eexists _, _.
Qed.

(** ** Stores the handlers can produce *)

Lemma post_subscriptions_rsvps (d : Db) (userID : string)
    (sector category : option string) (subEnd : option Date) :
  rsvps (store (run (post_subscriptions userID sector category subEnd) d).2)
  = rsvps d.
Proof.
  unfold post_subscriptions. destruct (truthy sector); [|done].
  store_steps. case_decide; [done|]. by destruct subEnd as [[t|]|].
Qed.

Lemma put_subscriptions_rsvps (d : Db) (userID id : string)
    (body : SubscriptionUpdate.t) :
  rsvps (store (run (put_subscriptions userID id body) d).2) = rsvps d.
Proof.
  unfold put_subscriptions. store_steps.
  destruct (single _) as [s|]; [|done]. case_decide; [done|].
  destruct (rejected_status _); [done|].
  destruct (SubscriptionUpdate.subEnd body) as [[[t|]|]|];
    destruct (apply_update body); try done;
    cbn [store calls app]; by destruct (single _).
Qed.

Lemma post_events_rsvps (d : Db) (body : EventBody.t) :
  rsvps (store (run (post_events body) d).2) = rsvps d.
Proof.
  unfold post_events.
  destruct (truthy (EventBody.eventName body)); [|done].
  destruct (truthy (EventBody.eventType body)); [|done].
  destruct (EventBody.startDate body) as [[start|]|];
    destruct (EventBody.endDate body) as [[finish|]|];
    try done; case_decide; try done; cbn [date_leb];
    try destruct (finish <=? start); done.
Qed.

(** Every such store holds at most one RSVP per (user, event). *)
Lemma reachable_unique (d : Db) : reachable d → rsvp_unique d.
Proof.
  induction 1 as [d Hnone| | | | |].
  - unfold rsvp_unique, primary_key. rewrite Hnone. constructor.
  - by apply rsvp_unique_post.
  - by apply rsvp_unique_delete.
  - unfold rsvp_unique. by rewrite post_subscriptions_rsvps.
  - unfold rsvp_unique. by rewrite put_subscriptions_rsvps.
  - unfold rsvp_unique. by rewrite post_events_rsvps.
Qed.

(** ** Properties of the calendar router *)

(** The calendar functions on known dates. *)
Example calendar_known_dates :
  civil_from_days 0 = (1970, 1, 1)
  ∧ civil_from_days 11016 = (2000, 2, 29)
  ∧ civil_from_days (-1) = (1969, 12, 31)
  ∧ days_from_civil 2024 3 1 = 19783
  ∧ getDay (utc 2024 3 4 0 0 0) = 1
  ∧ toISODate (utc 2024 3 31 23 59 59) = "2024-03-31"
  ∧ toDateString (utc 2024 3 4 9 0 0) = "Mon Mar 04 2024"
  ∧ Date_ymd 2024 2 0 = utc 2024 2 29 0 0 0
  ∧ Date_ymd 2024 12 0 = utc 2024 12 31 0 0 0.
Proof. by vm_compute. Qed.

Lemma Day_of_day (day : Z) : Day (day * msPerDay) = day.
Proof. unfold Day. apply Z.div_mul. unfold msPerDay. lia. Qed.

Lemma toISODate_day (t : Z) : toISODate t = iso_of_day (Day t).
Proof. unfold iso_of_day, toISODate. by rewrite Day_of_day. Qed.

Lemma Day_next (t : Z) : Day (t + msPerDay) = Day t + 1.
Proof.
  unfold Day. replace (t + msPerDay) with (t + 1 * msPerDay) by lia.
  apply Z.div_add. unfold msPerDay. lia.
Qed.

Lemma steps_next (start stop : Z) :
  start <= stop → steps (start + msPerDay) stop = steps start stop - 1.
Proof.
  intros Hle. unfold steps. rewrite (decide_True _ _ Hle).
  case_decide as Hnext.
  - replace (stop - (start + msPerDay)) with (stop - start + -1 * msPerDay)
      by lia.
    rewrite Z.div_add by (unfold msPerDay; lia). lia.
  - rewrite Z.div_small by lia. lia.
Qed.

Lemma steps_positive (start stop : Z) : start <= stop → 0 < steps start stop.
Proof.
  intros Hle. unfold steps. rewrite (decide_True _ _ Hle).
  assert (0 <= (stop - start) / msPerDay)
    by (apply Z.div_pos; unfold msPerDay; lia).
  lia.
Qed.

(** The loop yields the days from the day of [start] on, [steps] of them. *)
Lemma dateGrid_loop_days (start stop : Z) :
  dateGrid_loop start stop
  = iso_of_day <$> seqZ (Day start) (steps start stop).
Proof.
  funelim (dateGrid_loop start stop).
  - match goal with IH : dateGrid_loop _ _ = _ <$> _ |- _ => rewrite IH end.
    rewrite setDate_next_day, Day_next, steps_next by done.
    rewrite (seqZ_cons (Day current)) by (by apply steps_positive).
    rewrite fmap_cons, <- toISODate_day. unfold Z.succ, Z.pred. done.
  - unfold steps. rewrite decide_False by done. by rewrite seqZ_nil.
Qed.


(** What a calendar request with a valid range is answered. *)
Lemma get_calendar_reply (d : Db) (userID : string) (q : CalendarQuery.t)
    (start stop : Z) :
  range_start (now d) q = Valid start → range_end (now d) q = Valid stop →
  ∃ body w events,
    run (get_calendar userID q) d = (Json 200 body, w)
    ∧ store w = d
    ∧ dateGrid body = dateGrid_loop start stop
    ∧ calendarData body
      = calendar_row userID events <$> merge_sort by_companyName (gics_companies d).
Proof.
  intros Hstart Hstop. unfold get_calendar. store_steps.
  rewrite Hstart, Hstop. by eexists _, _, _.
Qed.



#[global] Instance by_companyName_total : Total by_companyName.
Proof. intros a b. unfold by_companyName. apply String.leb_total. Qed.

(** C5: the grid has one row per company of the catalog, in the order of
    the company names, whatever events the store holds; with an empty
    catalog the grid is empty while the date axis is as for any catalog. *)
Theorem calendar_rows (d : Db) (userID : string) (q : CalendarQuery.t)
    (start stop : Z) :
  range_start (now d) q = Valid start → range_end (now d) q = Valid stop →
  ∃ body w,
    run (get_calendar userID q) d = (Json 200 body, w)
    ∧ company <$> calendarData body
      = merge_sort by_companyName (gics_companies d)
    ∧ company <$> calendarData body ≡ₚ gics_companies d
    ∧ Sorted by_companyName (company <$> calendarData body)
    ∧ length (calendarData body) = length (gics_companies d)
    ∧ (gics_companies d = [] →
       calendarData body = []
       ∧ dateGrid body = iso_of_day <$> seqZ (Day start) (steps start stop)
       ∧ (start <= stop → toISODate start ∈ dateGrid body)).
Proof.
  intros Hstart Hstop.
  destruct (get_calendar_reply d userID q start stop Hstart Hstop)
    as (body & w & events & Hrun & _ & Hgrid & Hrows).
  exists body, w. split; [done|].
  assert (Hcompanies : company <$> calendarData body
                       = merge_sort by_companyName (gics_companies d)).
  { rewrite Hrows, <- list_fmap_compose. rewrite <- (list_fmap_id (merge_sort _ _)) at 2.
    apply list_fmap_ext. intros _ [????] _. done. }
  split; [done|]. rewrite Hcompanies.
  split; [apply merge_sort_Permutation|].
  split; [apply Sorted_merge_sort, _|].
  split.
  - rewrite <- (length_fmap company), Hcompanies.
    by rewrite merge_sort_Permutation.
  - intros Hempty. rewrite Hrows, Hgrid, Hempty, dateGrid_loop_days.
    repeat split. intros Hle.
    rewrite (seqZ_cons (Day start)) by (by apply steps_positive).
    rewrite fmap_cons, <- toISODate_day. left.
Qed.

(** *** The week view *)

Lemma Day_startOfWeek (t : Z) : Day (startOfWeek t) = Day t - getDay t + 1.
Proof.
  unfold startOfWeek, setDate, Day, TimeWithinDay, msPerDay.
  pose proof (Z.mod_pos_bound t 86400000 ltac:(lia)).
  symmetry. apply (Z.div_unique _ _ _ (t `mod` 86400000)); lia.
Qed.


(** From Monday to Saturday the week holds the anchor date. *)
Lemma week_holds_anchor (t : Z) :
  getDay t ≠ 0 → Day (startOfWeek t) <= Day t <= Day (startOfWeek t) + 6.
Proof.
  intros Hday. rewrite Day_startOfWeek. unfold getDay in *.
  pose proof (Z.mod_pos_bound (Day t + 4) 7 ltac:(lia)). lia.
Qed.

(** On a Sunday the week starts the day after the anchor date. *)
Lemma week_after_sunday (t : Z) :
  getDay t = 0 → Day (startOfWeek t) = Day t + 1.
Proof. intros Hday. rewrite Day_startOfWeek. lia. Qed.

(** The week view always has seven buckets. *)
Lemma week_has_seven_days (d : Db) (userID : string) (t : Z) :
  ∃ body w,
    run (get_calendar_week userID (Some (Valid t))) d = (Json 200 body, w)
    ∧ length (weekData body) = 7%nat.
Proof. unfold get_calendar_week. store_steps. by eexists _, _. Qed.

(** C3, at an anchor date that is a Sunday: for 3 March 2024 the week view
    answers the week from Monday 4 March to Sunday 10 March, which does not
    hold the anchor date, and the event of 3 March the user has an RSVP for
    is in none of the seven buckets. *)
Theorem week_view_of_a_sunday :
  let anchor := utc 2024 3 3 0 0 0 in
  getDay anchor = 0
  ∧ toISODate anchor = "2024-03-03"
  ∧ ∃ body w,
      run (get_calendar_week "analyst" (Some (Valid anchor))) sample_db
      = (Json 200 body, w)
      ∧ weekRange body = ("2024-03-04", "2024-03-10")
      ∧ date <$> weekData body
        = ["2024-03-04"; "2024-03-05"; "2024-03-06"; "2024-03-07";
           "2024-03-08"; "2024-03-09"; "2024-03-10"]
      ∧ day_name <$> weekData body
        = ["Monday"; "Tuesday"; "Wednesday"; "Thursday"; "Friday";
           "Saturday"; "Sunday"]
      ∧ day_events <$> weekData body = [[]; []; []; []; []; []; []].
Proof.
  cbv zeta. split; [by vm_compute|]. split; [by vm_compute|].
  eexists _, _. split; [vm_compute; reflexivity|]. by vm_compute.
Qed.

(** The start of the week keeps the anchor's time of day, so the events of
    the Monday before that time are not selected: asked on Wednesday
    6 March 2024 at 15:00 the week view leaves out the Monday 09:00 event
    the user has an RSVP for, which it shows when asked for the same day at
    00:00. *)
Lemma week_view_after_monday_morning :
  (∃ body w,
     run (get_calendar_week "analyst" (Some (Valid (utc 2024 3 6 15 0 0))))
         briefing_db
     = (Json 200 body, w)
     ∧ weekRange body = ("2024-03-04", "2024-03-10")
     ∧ day_events <$> weekData body = [[]; []; []; []; []; []; []])
  ∧ (∃ body w,
       run (get_calendar_week "analyst" (Some (Valid (utc 2024 3 6 0 0 0))))
           briefing_db
       = (Json 200 body, w)
       ∧ weekRange body = ("2024-03-04", "2024-03-10")
       ∧ (fun day => Event.eventID <$> (EventView.event <$> day_events day))
         <$> weekData body
         = [["e3"]; []; []; []; []; []; []]).
Proof.
  split; eexists _, _; (split; [vm_compute; reflexivity|by vm_compute]).
Qed.

(** ** The theorems at the sample data *)

Ltac by_computation := apply (bool_decide_unpack _); vm_compute; exact I.

Lemma sample_events_keyed : primary_key Event.eventID (events sample_db).
Proof. unfold primary_key. by_computation. Defined.

Lemma rsvp_upsert_twice_witness :
  ∃ r1 w1 r2 w2,
    run (post_rsvp "analyst" (Some "e1") (Some "ACCEPTED")) sample_db
    = (Json 200 (mkRsvpReply "RSVP created successfully" r1), w1)
    ∧ run (post_rsvp "analyst" (Some "e1") (Some "TENTATIVE")) (store w1)
      = (Json 200 (mkRsvpReply "RSVP updated successfully" r2), w2)
    ∧ filter (addressed "analyst" "e1") (rsvps (store w2)) = [r2]
    ∧ addressed "analyst" "e1" r2
    ∧ Rsvp.status r2 = "TENTATIVE"
    ∧ filter (fun r => ¬ addressed "analyst" "e1" r) (rsvps (store w2))
      = rsvps sample_db
    ∧ store w2
      = store (run (post_rsvp "analyst" (Some "e1") (Some "TENTATIVE"))
                   sample_db).2.
Proof.
  apply rsvp_upsert_twice.
  - discriminate.
  - by_computation.
  - by_computation.
  - exact sample_events_keyed.
  - exists earnings. split; [by_computation|reflexivity].
  - apply Forall_forall. by_computation.
Defined.

Lemma rsvp_delete_witness :
  ∃ w1 w2,
    run (delete_rsvp "analyst" "e2") sample_db
    = (Json 200 "RSVP deleted successfully", w1)
    ∧ rsvps (store w1) = []
    ∧ run (delete_rsvp "analyst" "e2") (store w1)
      = (Error 404 "RSVP not found", w2)
    ∧ store w2 = store w1.
Proof.
  assert (Huniq : rsvp_unique sample_db)
    by (unfold rsvp_unique, primary_key; by_computation).
  destruct (rsvp_delete sample_db "analyst" "e2") as [_ Hdelete].
  destruct (Hdelete Huniq (Rsvp.mk "r1" "analyst" "e2" "ACCEPTED" (utc 2024 2 1 9 0 0)))
    as (w1 & w2 & Hrun & Hstore & _ & Hagain & Hsame).
  - by_computation.
  - split; reflexivity.
  - exists w1, w2. split; [exact Hrun|]. split; [|by split].
    rewrite Hstore. reflexivity.
Defined.

Lemma rsvp_validation_first_witness :
  ∃ msg,
    post_rsvp "analyst" (Some "e1") (Some "MAYBE") (mkWorld sample_db [])
    = (Error 400 msg, mkWorld sample_db []).
Proof.
  apply (proj1 (rsvp_validation_first "analyst" (Some "e1") (Some "MAYBE")
                  (mkWorld sample_db []))).
  right. right. exists "MAYBE". split; [reflexivity|].
  intros Hin. revert Hin. by_computation.
Defined.

Lemma rsvp_event_statistics_witness :
  ∃ body w,
    run (get_rsvp_event "e2" None) sample_db = (Json 200 body, w)
    ∧ total (rsvp_statistics body)
      = (accepted (rsvp_statistics body) + declined (rsvp_statistics body)
         + tentative (rsvp_statistics body)
         + pending (rsvp_statistics body))%nat.
Proof.
  destruct (rsvp_event_statistics sample_db "e2" None)
    as (body & w & Hrun & _ & _ & _ & _ & _ & _ & _ & Hsum).
  exists body, w. split; [exact Hrun|]. apply Hsum.
  intros r Hr _. revert r Hr. apply Forall_forall. by_computation.
Defined.


Lemma subscription_update_guard_witness :
  ∃ w,
    run (put_subscriptions "analyst" "s1"
           (SubscriptionUpdate.mk None None None (Some (Some "INACTIVE"))))
        sample_db
    = (Error 403 "Insufficient permissions", w)
    ∧ store w = sample_db.
Proof.
  assert (Hkey : primary_key Subscription.subID (subscriptions sample_db))
    by (unfold primary_key; by_computation).
  destruct (subscription_update_guard sample_db "analyst" "s1"
              (SubscriptionUpdate.mk None None None (Some (Some "INACTIVE"))))
    as [Hforbidden _].
  apply (Hforbidden Hkey (Subscription.mk "s1" "manager" "Energy" None
                       (utc 2024 1 1 0 0 0) None "ACTIVE" (utc 2024 1 1 0 0 0))).
  - by_computation.
  - reflexivity.
  - discriminate.
Defined.

Lemma event_dates_validated_witness :
  ∃ msg,
    post_events ends_before_it_starts (mkWorld sample_db [])
    = (Error 400 msg, mkWorld sample_db []).
Proof.
  apply (proj1 (event_dates_validated ends_before_it_starts
                  (utc 2024 4 10 14 0 0) (utc 2024 4 10 13 0 0)
                  (mkWorld sample_db []) eq_refl eq_refl)).
  by vm_compute.
Defined.


Lemma calendar_rows_witness :
  ∃ body w,
    run (get_calendar "analyst"
           (between (utc 2024 3 1 0 0 0) (utc 2024 3 31 0 0 0))) sample_db
    = (Json 200 body, w)
    ∧ Company.companyName <$> (company <$> calendarData body)
      = ["Acme Corp"; "Bolt Inc"].
Proof.
  destruct (calendar_rows sample_db "analyst"
              (between (utc 2024 3 1 0 0 0) (utc 2024 3 31 0 0 0))
              (utc 2024 3 1 0 0 0) (utc 2024 3 31 0 0 0) eq_refl eq_refl)
    as (body & w & Hrun & Hcompanies & _).
  exists body, w. split; [exact Hrun|]. rewrite Hcompanies. by vm_compute.
Defined.

(** * Further properties *)

(** Unfolds the store primitives of the remaining routes as well. *)
Ltac route_steps :=
  unfold update_events, delete_events_where, delete_subscriptions_where,
    select_subscriptions_ordered;
  store_steps.

(** ** routes/rsvp.ts *)

#[global] Instance by_createdAt_desc_total : Total by_createdAt_desc.
Proof. intros a b. unfold by_createdAt_desc. lia. Qed.

(** X1: An upsert for an event that is not stored answers 404 after the one
    look-up of the event: the RSVPs are neither read nor written. *)
Theorem post_rsvp_unknown_event (d : Db) (userID eventID status : string) :
  eventID ≠ "" → status ∈ validStatuses →
  (∀ ev, ev ∈ events d → Event.eventID ev ≠ eventID) →
  run (post_rsvp userID (Some eventID) (Some status)) d
  = (Error 404 "Event not found", mkWorld d [(q_select, t_events)]).
Proof.
  intros He Hs Hmissing. unfold post_rsvp.
  rewrite (truthy_Some eventID He), (valid_status_truthy status Hs).
  rewrite decide_True by done. store_steps.
  by rewrite (filter_none _ (events d)) by exact Hmissing.
Qed.

(** X5: The listing of an event's RSVPs returns the RSVPs stored for the event
    (those of the status asked for, when one is given), each once, newest
    first, and leaves the store as it was. *)
Theorem rsvp_event_listing (d : Db) (eventID : string)
    (status : option string) :
  ∃ body w,
    run (get_rsvp_event eventID status) d = (Json 200 body, w)
    ∧ store w = d
    ∧ listed body
      ≡ₚ filter (fun r => Rsvp.eventID r = eventID
                          ∧ eq_if_given status (Some (Rsvp.status r)))
                (rsvps d)
    ∧ Sorted by_createdAt_desc (listed body)
    ∧ (∀ s, truthy status = Some s →
            ∀ r, r ∈ listed body → Rsvp.status r = s).
Proof.
  unfold get_rsvp_event. store_steps. eexists _, _.
  split; [reflexivity|]. cbn [store listed]. split; [done|].
  split; [apply merge_sort_Permutation|].
  split; [apply Sorted_merge_sort, _|].
  intros s Hs r Hr. rewrite merge_sort_Permutation in Hr.
  apply list_elem_of_filter in Hr as [[_ Hstatus] _].
  unfold eq_if_given in Hstatus. rewrite Hs in Hstatus. by injection Hstatus.
Qed.

(** X4: A user's RSVPs are served to that user, to a manager and to an admin;
    anybody else is answered 403 before the store is consulted.  The
    listing holds the RSVPs of the user asked for, each once, newest
    first, and the store stays as it was. *)
Theorem rsvp_user_listing (d : Db) (requestingUser role userID : string) :
  (userID ≠ requestingUser → role ≠ "ANALYST_MANAGER" → role ≠ "IR_ADMIN" →
   run (get_rsvp_user requestingUser role userID) d
   = (Error 403 "Insufficient permissions", mkWorld d []))
  ∧ (userID = requestingUser ∨ role = "ANALYST_MANAGER" ∨ role = "IR_ADMIN" →
     ∃ found w,
       run (get_rsvp_user requestingUser role userID) d = (Json 200 found, w)
       ∧ store w = d
       ∧ found ≡ₚ filter (fun r => Rsvp.userID r = userID) (rsvps d)
       ∧ Sorted by_createdAt_desc found).
Proof.
  unfold get_rsvp_user. split.
  - intros Hother Hmanager Hadmin. by rewrite decide_True.
  - intros Hallowed.
    rewrite decide_False
      by (intros (? & ? & ?); by destruct Hallowed as [?|[?|?]]).
    store_steps. eexists _, _. split; [reflexivity|]. split; [done|].
    split; [apply merge_sort_Permutation|apply Sorted_merge_sort, _].
Qed.

(** ** routes/subscriptions.ts *)

#[global] Instance by_sub_createdAt_desc_total : Total by_sub_createdAt_desc.
Proof. intros a b. unfold by_sub_createdAt_desc. lia. Qed.


(** X6: The listing of subscriptions returns the caller's subscriptions and no
    one else's (those of the status asked for, when one is given), each
    once, newest first, and leaves the store as it was. *)
Theorem subscription_listing (d : Db) (userID : string)
    (status : option string) :
  ∃ found w,
    run (get_subscriptions userID status) d = (Json 200 found, w)
    ∧ store w = d
    ∧ found
      ≡ₚ filter (fun s => Subscription.userID s = userID
                          ∧ eq_if_given status (Some (Subscription.status s)))
                (subscriptions d)
    ∧ Sorted by_sub_createdAt_desc found
    ∧ (∀ s, s ∈ found → Subscription.userID s = userID).
Proof.
  unfold get_subscriptions. store_steps. eexists _, _.
  split; [reflexivity|]. split; [done|].
  split; [apply merge_sort_Permutation|].
  split; [apply Sorted_merge_sort, _|].
  intros s Hs. rewrite merge_sort_Permutation in Hs.
  by apply list_elem_of_filter in Hs as [[? _] _].
Qed.

(** Rows a keyed update leaves alone. *)
Lemma fmap_keyed_others {A K} `{EqDecision K} (key : A -> K) (k : K)
    (f : A -> A) (l : list A) :
  (∀ x, key (f x) = key x) →
  filter (fun x => key x ≠ k)
         ((fun x => if decide (key x = k) then f x else x) <$> l)
  = filter (fun x => key x ≠ k) l.
Proof.
  intros Hkey. induction l as [|a l IH]; [done|].
  rewrite fmap_cons, !filter_cons, IH.
  destruct (decide (key a = k)) as [Ha|Ha].
  - rewrite !decide_False; [done|by intros H1; apply H1|].
    rewrite Hkey. by intros H1; apply H1.
  - by rewrite !decide_True.
Qed.

Lemma fmap_keyed_one {A K} `{EqDecision K} (key : A -> K) (k : K)
    (f : A -> A) (l : list A) (a : A) :
  (∀ x, key (f x) = key x) →
  filter (fun x => key x = k) l = [a] →
  filter (fun x => key x = k)
         ((fun x => if decide (key x = k) then f x else x) <$> l)
  = [f a].
Proof.
  intros Hkey Hone. change [f a] with (f <$> [a]). rewrite <- Hone. clear Hone.
  induction l as [|x l IH]; [done|].
  rewrite fmap_cons, !filter_cons, IH.
  destruct (decide (key x = k)) as [Hx|Hx].
  - rewrite decide_True by (by rewrite Hkey). done.
  - by rewrite decide_False.
Qed.


(** What the owner's update does. *)
Lemma put_subscriptions_owner (d : Db) (caller id : string)
    (body : SubscriptionUpdate.t) (s : Subscription.row)
    (f : Subscription.row -> Subscription.row) :
  primary_key Subscription.subID (subscriptions d) →
  s ∈ subscriptions d → Subscription.subID s = id →
  Subscription.userID s = caller →
  rejected_status (SubscriptionUpdate.status body) = false →
  SubscriptionUpdate.subEnd body ≠ Some (Some Invalid) →
  apply_update body = Some f →
  run (put_subscriptions caller id body) d
  = (Json 200 (mkSubscriptionReply "Subscription updated successfully" (f s)),
     mkWorld (set_subscriptions d
                ((fun r => if decide (Subscription.subID r = id)
                           then f r else r) <$> subscriptions d))
             [(q_select, t_subscriptions); (q_update, t_subscriptions)]).
Proof.
  intros Hkey Hin <- Hown Hstatus Hend Hf.
  pose proof (filter_key Subscription.subID _ s Hkey Hin) as Hone.
  unfold put_subscriptions. store_steps. rewrite Hone. cbn [single].
  rewrite decide_False by (by intros H1; apply H1).
  rewrite Hstatus, Hf.
  destruct (SubscriptionUpdate.subEnd body) as [[[t|]|]|]; try done;
    store_steps; by rewrite Hone.
Qed.


(** X8: Only active subscriptions count as duplicates: once its owner has set
    a subscription to INACTIVE, a create for the same (sector,
    sub-category) succeeds again. *)
Theorem subscription_recreate_after_deactivation (d : Db) (userID : string)
    (gicsSector gicsSubCategory : option string) (subEnd : option Date)
    (reply : SubscriptionReply) (w1 : World) :
  run (post_subscriptions userID gicsSector gicsSubCategory subEnd) d
  = (Json 201 reply, w1) →
  primary_key Subscription.subID (subscriptions (store w1)) →
  ∃ reply2 w2 reply3 w3,
    run (put_subscriptions userID (Subscription.subID (subscription reply))
           (set_status_only "INACTIVE")) (store w1)
    = (Json 200 reply2, w2)
    ∧ Subscription.status (subscription reply2) = "INACTIVE"
    ∧ run (post_subscriptions userID gicsSector gicsSubCategory subEnd)
          (store w2)
      = (Json 201 reply3, w3)
    ∧ Subscription.status (subscription reply3) = "ACTIVE".
Proof.
  intros Hrun Hkey.
  destruct (post_subscriptions_created _ _ _ _ _ _ _ Hrun)
    as (sector & -> & Hsec & Hend & Hnone).
  rewrite post_subscriptions_creates in Hrun by done.
  injection Hrun as <- <-. cbn [subscription store] in *.
  set (s := Subscription.mk _ _ _ _ _ _ _ _) in *.
  set (d1 := bump _) in *.
  assert (Hin : s ∈ subscriptions d1)
    by (cbn; apply elem_of_app; right; left).
  set (f := fun r : Subscription.row =>
              Subscription.mk (Subscription.subID r) (Subscription.userID r)
                (Subscription.gicsSector r) (Subscription.gicsSubCategory r)
                (Subscription.subStart r) (Subscription.subEnd r) "INACTIVE"
                (Subscription.createdAt r)).
  eexists _, _, _, _.
  rewrite (put_subscriptions_owner d1 userID _ (set_status_only "INACTIVE") s f)
    by done.
  split; [reflexivity|]. split; [done|]. cbn [store].
  rewrite post_subscriptions_creates; [done..|].
  intros x Hx Hactive. cbn in Hx.
  apply list_elem_of_fmap in Hx as (y & -> & Hy).
  case_decide as Hid.
  - destruct Hactive as (_ & _ & _ & Hstatus). done.
  - apply elem_of_app in Hy as [Hy|Hy]; [by apply (Hnone y)|].
    apply list_elem_of_singleton in Hy as ->. done.
Qed.

Lemma delete_subscriptions_missing (d : Db) (caller id : string) :
  (∀ s, s ∈ subscriptions d → Subscription.subID s ≠ id) →
  run (delete_subscriptions caller id) d
  = (Error 404 "Subscription not found",
     mkWorld d [(q_select, t_subscriptions)]).
Proof.
  intros Hmissing. unfold delete_subscriptions. store_steps.
  rewrite (filter_none _ (subscriptions d)); [done|].
  intros s Hin. by apply Hmissing.
Qed.

(** X10: Deleting a subscription: an id that is not stored answers 404 and a
    subscription of another user answers 403, the store staying as it was;
    the owner's delete answers 200 and removes that subscription and no
    other, after which a second delete answers 404. *)
Theorem subscription_delete (d : Db) (caller id : string) :
  ((∀ s, s ∈ subscriptions d → Subscription.subID s ≠ id) →
   run (delete_subscriptions caller id) d
   = (Error 404 "Subscription not found",
      mkWorld d [(q_select, t_subscriptions)]))
  ∧ (primary_key Subscription.subID (subscriptions d) →
     ∀ s, s ∈ subscriptions d → Subscription.subID s = id →
       (Subscription.userID s ≠ caller →
        run (delete_subscriptions caller id) d
        = (Error 403 "Insufficient permissions",
           mkWorld d [(q_select, t_subscriptions)]))
       ∧ (Subscription.userID s = caller →
          ∃ w1 w2,
            run (delete_subscriptions caller id) d
            = (Json 200 "Subscription deleted successfully", w1)
            ∧ store w1
              = set_subscriptions d (filter (fun x => x ≠ s) (subscriptions d))
            ∧ run (delete_subscriptions caller id) (store w1)
              = (Error 404 "Subscription not found", w2)
            ∧ store w2 = store w1)).
Proof.
  split; [apply delete_subscriptions_missing|].
  intros Hkey s Hin <-.
  pose proof (filter_key Subscription.subID _ s Hkey Hin) as Hone.
  split.
  - intros Hother. unfold delete_subscriptions. store_steps.
    rewrite Hone. cbn [single]. by rewrite decide_True.
  - intros Hown.
    assert (Hrest : filter (fun x => ¬ Subscription.subID x = Subscription.subID s)
                           (subscriptions d)
                    = filter (fun x => x ≠ s) (subscriptions d)).
    { apply filter_ext_in. intros x Hx. split.
      - intros Hne ->. by apply Hne.
      - intros Hne Heq. apply Hne.
        assert (x ∈ filter (fun y => Subscription.subID y = Subscription.subID s)
                           (subscriptions d)) as Hmem
          by (by apply list_elem_of_filter).
        rewrite Hone in Hmem. by apply list_elem_of_singleton in Hmem. }
    set (d1 := set_subscriptions d (filter (fun x => x ≠ s) (subscriptions d))).
    exists (mkWorld d1 [(q_select, t_subscriptions); (q_delete, t_subscriptions)]),
           (mkWorld d1 [(q_select, t_subscriptions)]).
    split; [|split; [done|split; [|done]]].
    + unfold delete_subscriptions. store_steps. rewrite Hone. cbn [single].
      rewrite decide_False by (by intros H1; apply H1).
      cbn [store calls app]. unfold d1. by rewrite <- Hrest.
    + apply delete_subscriptions_missing. intros x Hx. cbn in Hx.
      rewrite <- Hrest in Hx. by apply list_elem_of_filter in Hx as [? _].
Qed.

(** *** The sector catalog *)

Lemma elem_of_set_add (x y : string) (set : list string) :
  y ∈ set_add x set ↔ y ∈ set ∨ y = x.
Proof.
  unfold set_add. case_decide as Hin.
  - split; [by left|]. by intros [?| ->].
  - rewrite elem_of_app, list_elem_of_singleton. done.
Qed.

Lemma NoDup_set_add (x : string) (set : list string) :
  NoDup set → NoDup (set_add x set).
Proof.
  intros Hset. unfold set_add. case_decide as Hin; [done|].
  apply NoDup_app. split; [done|]. split; [|apply NoDup_singleton].
  intros y Hy Hyx. apply list_elem_of_singleton in Hyx as ->. done.
Qed.

Lemma set_add_nonempty (x : string) (set : list string) : set_add x set ≠ [].
Proof.
  intros Hnil. assert (x ∈ set_add x set) as Hx
    by (apply elem_of_set_add; by right).
  rewrite Hnil in Hx. by apply elem_of_nil in Hx.
Qed.

(** The keys stay distinct. *)
Lemma sector_add_keys (k x : string) (m : list (string * list string)) :
  (sector_add k x m).*1 = if decide (k ∈ m.*1) then m.*1 else m.*1 ++ [k].
Proof.
  induction m as [|[k' set] m IH]; [done|].
  cbn [sector_add]. destruct (decide (k' = k)) as [->|Hne].
  - cbn. rewrite decide_True; [done|left].
  - cbn [fmap list_fmap fst]. rewrite IH.
    destruct (decide (k ∈ m.*1)) as [Hin|Hout].
    + rewrite decide_True; [done|by right].
    + rewrite decide_False; [done|].
      intros [?|?]%elem_of_cons; [by apply Hne|done].
Qed.

Lemma sector_add_NoDup (k x : string) (m : list (string * list string)) :
  NoDup m.*1 → NoDup (sector_add k x m).*1.
Proof.
  intros Hm. rewrite sector_add_keys. case_decide as Hin; [done|].
  apply NoDup_app. split; [done|]. split; [|apply NoDup_singleton].
  intros y Hy Hyk. apply list_elem_of_singleton in Hyk as ->. done.
Qed.

(** The sets stay sets, none of them empty. *)
Lemma sector_add_sets (k x : string) (m : list (string * list string)) :
  Forall (fun e => NoDup e.2 ∧ e.2 ≠ []) m →
  Forall (fun e => NoDup e.2 ∧ e.2 ≠ []) (sector_add k x m).
Proof.
  induction 1 as [|[k' set] m [Hset Hne] Hm IH]; cbn [sector_add].
  - constructor; [|constructor].
    split; [apply NoDup_set_add; constructor|apply set_add_nonempty].
  - case_decide.
    + constructor; [|done]. split; [by apply NoDup_set_add|].
      apply set_add_nonempty.
    + by constructor.
Qed.

Lemma sector_add_filed (k x : string) (m : list (string * list string))
    (k' x' : string) :
  filed (sector_add k x m) k' x' ↔ filed m k' x' ∨ (k' = k ∧ x' = x).
Proof.
  unfold filed. induction m as [|[k0 set0] m IH]; cbn [sector_add].
  - split.
    + intros (set & Hin & Hx). apply list_elem_of_singleton in Hin as [= -> ->].
      apply elem_of_set_add in Hx as [Hx| ->]; [by apply elem_of_nil in Hx|].
      by right.
    + intros [(set & Hin & _)|[-> ->]]; [by apply elem_of_nil in Hin|].
      eexists. split; [left|]. apply elem_of_set_add. by right.
  - case_decide as Hk.
    + subst k0. split.
      * intros (set & Hin & Hx). apply elem_of_cons in Hin as [[= -> ->]|Hin].
        -- apply elem_of_set_add in Hx as [Hx| ->]; [|by right].
           left. exists set0. split; [left|done].
        -- left. exists set. split; [by right|done].
      * intros [(set & Hin & Hx)|[-> ->]].
        -- apply elem_of_cons in Hin as [[= -> ->]|Hin].
           ++ eexists. split; [left|]. apply elem_of_set_add. by left.
           ++ exists set. split; [by right|done].
        -- eexists. split; [left|]. apply elem_of_set_add. by right.
    + split.
      * intros (set & Hin & Hx). apply elem_of_cons in Hin as [[= -> ->]|Hin].
        -- left. exists set0. split; [left|done].
        -- destruct (proj1 IH) as [(set' & Hin' & Hx')|Hnew]; [by eauto| |by right].
           left. exists set'. split; [by right|done].
      * intros [(set & Hin & Hx)|Hnew].
        -- apply elem_of_cons in Hin as [[= -> ->]|Hin].
           ++ exists set0. split; [left|done].
           ++ destruct (proj2 IH) as (set' & Hin' & Hx'); [left; by eauto|].
              exists set'. split; [by right|done].
        -- destruct (proj2 IH) as (set' & Hin' & Hx'); [by right|].
           exists set'. split; [by right|done].
Qed.

Lemma sector_fold (l : list Company.row) (m : list (string * list string)) :
  let m' := foldl (fun acc item =>
                     sector_add (Company.gicsSector item)
                                (Company.gicsSubCategory item) acc) m l in
  (NoDup m.*1 → NoDup m'.*1)
  ∧ (Forall (fun e => NoDup e.2 ∧ e.2 ≠ []) m →
     Forall (fun e => NoDup e.2 ∧ e.2 ≠ []) m')
  ∧ ∀ k x, filed m' k x
           ↔ filed m k x
             ∨ ∃ c, c ∈ l ∧ Company.gicsSector c = k
                    ∧ Company.gicsSubCategory c = x.
Proof.
  revert m. induction l as [|c l IH]; intros m; cbn [foldl].
  - split; [done|]. split; [done|]. intros k x. split; [by left|].
    intros [?|(c & Hc & _)]; [done|by apply elem_of_nil in Hc].
  - destruct (IH (sector_add (Company.gicsSector c)
                             (Company.gicsSubCategory c) m))
      as (Hkeys & Hsets & Hfiled).
    split; [intros Hm; by apply Hkeys, sector_add_NoDup|].
    split; [intros Hm; by apply Hsets, sector_add_sets|].
    intros k x. rewrite Hfiled, sector_add_filed. split.
    + intros [[?|[-> ->]]|(c' & Hc' & Hk & Hx)]; [by left| |].
      * right. exists c. split; [left|done].
      * right. exists c'. split; [by right|done].
    + intros [?|(c' & Hc' & Hk & Hx)]; [by left; left|].
      apply elem_of_cons in Hc' as [->|Hc'].
      * left. right. done.
      * right. by exists c'.
Qed.

(** X11: The sector catalog lists every sector of the company catalog once, and
    under it every sub-category that a company of the sector has, each
    once; it lists nothing else, and no sector comes without a
    sub-category. The store is left as it was. *)
Theorem sectors_catalog (d : Db) :
  ∃ found w,
    run get_sectors d = (Json 200 found, w)
    ∧ store w = d
    ∧ NoDup (sector <$> found)
    ∧ (∀ e, e ∈ found → NoDup (subCategories e) ∧ subCategories e ≠ [])
    ∧ (∀ k x,
         (∃ e, e ∈ found ∧ sector e = k ∧ x ∈ subCategories e)
         ↔ (∃ c, c ∈ gics_companies d ∧ Company.gicsSector c = k
                 ∧ Company.gicsSubCategory c = x)).
Proof.
  unfold get_sectors. store_steps.
  set (l := merge_sort by_sector (gics_companies d)).
  destruct (sector_fold l []) as (Hkeys & Hsets & Hfiled).
  set (m := foldl _ [] l) in *. cbv zeta in Hkeys, Hsets, Hfiled.
  eexists _, _. split; [reflexivity|]. split; [done|].
  split; [|split].
  - rewrite <- list_fmap_compose.
    replace ((sector ∘ _) <$> m) with (m.*1); [apply Hkeys; constructor|].
    apply list_fmap_ext. by intros ? [??] ?.
  - intros e He. apply list_elem_of_fmap in He as ([k set] & -> & Hin).
    specialize (Hsets (Forall_nil_2 _)).
    rewrite Forall_forall in Hsets. apply (Hsets _ Hin).
  - intros k x. transitivity (filed m k x).
    + unfold filed. split.
      * intros (e & He & <- & Hx).
        apply list_elem_of_fmap in He as ([k set] & -> & Hin). by exists set.
      * intros (set & Hin & Hx). exists (mkSectorEntry k set).
        split; [|done]. by apply (list_elem_of_fmap_2' _ _ (k, set)).
    + rewrite Hfiled. split.
      * intros [(set & Hin & _)|(c & Hc & Hk & Hx)];
          [by apply elem_of_nil in Hin|].
        exists c. split; [|done]. unfold l in Hc.
        by rewrite merge_sort_Permutation in Hc.
      * intros (c & Hc & Hk & Hx). right. exists c. split; [|done].
        unfold l. by rewrite merge_sort_Permutation.
Qed.

(** ** routes/events.ts *)

(** X13: An event that a create inserts: it is appended to the stored events
    under a generated id and is the only change; it has a name, a valid
    type, and an end date, if any, strictly after its start; an optional
    field sent empty is stored as null. *)
Theorem event_create_well_formed (d : Db) (body : EventBody.t)
    (reply : EventReply) (w : World) :
  run (post_events body) d = (Json 201 reply, w) →
  store w = bump (set_events d (events d ++ [event reply]))
  ∧ Event.eventID (event reply) = gen_id (next_id d)
  ∧ Event.eventName (event reply) ≠ ""
  ∧ Event.eventType (event reply) ∈ validEventTypes
  ∧ (∀ finish, Event.endDate (event reply) = Some finish →
               Event.startDate (event reply) < finish)
  ∧ Event.tickerSymbol (event reply) ≠ Some ""
  ∧ Event.gicsSector (event reply) ≠ Some ""
  ∧ Event.location (event reply) ≠ Some "".
Proof.
  assert (Htruthy : ∀ f, truthy f ≠ Some "").
  { intros [s|]; [|done]. unfold truthy. case_decide; [done|]. by intros [= ->]. }
  unfold post_events.
  destruct (truthy (EventBody.eventName body)) as [name|] eqn:Hname; [|done].
  destruct (truthy (EventBody.eventType body)) as [type|]; [|done].
  destruct (EventBody.startDate body) as [start|]; [|done].
  case_decide as Htype; [|done].
  destruct (EventBody.endDate body) as [[finish|]|], start as [start|];
    cbn [date_leb]; try done.
  - destruct (finish <=? start) eqn:Hle; [done|]. apply Z.leb_gt in Hle.
    store_steps. intros [= <- <-]. cbn. repeat split; try done.
    + intros ->. by apply (Htruthy (EventBody.eventName body)).
    + by intros ? [= <-].
  - store_steps. intros [= <- <-]. cbn. repeat split; try done.
    intros ->. by apply (Htruthy (EventBody.eventName body)).
Qed.

Lemma event_update_keeps (body : EventUpdate.t) (start finish : option Z)
    (f : Event.row -> Event.row) (ev : Event.row) :
  event_update body start finish = Some f →
  Event.eventID (f ev) = Event.eventID ev
  ∧ Event.startDate (f ev)
    = match EventUpdate.startDate body, start with
      | Some _, Some s => s
      | _, _ => Event.startDate ev
      end
  ∧ Event.endDate (f ev)
    = match EventUpdate.endDate body with
      | Some _ => finish
      | None => Event.endDate ev
      end.
Proof.
  unfold event_update.
  destruct (EventUpdate.eventName body) as [[?|]|],
           (EventUpdate.eventType body) as [[?|]|]; by intros [= <-].
Qed.

Lemma event_update_defined (body : EventUpdate.t) (start finish : option Z) :
  EventUpdate.eventName body ≠ Some None →
  EventUpdate.eventType body ≠ Some None →
  ∃ f, event_update body start finish = Some f.
Proof.
  intros Hname Htype. unfold event_update.
  destruct (EventUpdate.eventName body) as [[?|]|],
           (EventUpdate.eventType body) as [[?|]|]; try done; by eexists.
Qed.

(** What an update that passes the checks does. *)
Lemma put_events_updates (d : Db) (id : string) (body : EventUpdate.t)
    (ev : Event.row) (f : Event.row -> Event.row) :
  primary_key Event.eventID (events d) →
  ev ∈ events d → Event.eventID ev = id →
  rejected_type (EventUpdate.eventType body) = false →
  match update_start body, update_end body with
  | Some start, Some finish => date_leb finish start
  | _, _ => false
  end = false →
  update_start body ≠ Some Invalid → update_end body ≠ Some Invalid →
  event_update body (stored (update_start body)) (stored (update_end body))
  = Some f →
  run (put_events id body) d
  = (Json 200 (mkEventReply "Event updated successfully" (f ev)),
     mkWorld (set_events d
                ((fun r => if decide (Event.eventID r = id) then f r else r)
                 <$> events d))
             [(q_select, t_events); (q_update, t_events)]).
Proof.
  intros Hkey Hin <- Htype Hdates Hstart Hend Hf.
  pose proof (filter_key Event.eventID _ ev Hkey Hin) as Hone.
  unfold put_events. store_steps. rewrite Hone. cbn [single].
  rewrite Htype, Hdates. unfold stored in Hf.
  destruct (update_start body) as [[s|]|], (update_end body) as [[e|]|];
    try done; rewrite Hf; route_steps; by rewrite Hone.
Qed.

(** X14: Updating an event: an id that is not stored answers 404, a type that is
    not a valid one answers 400, and so does a start date sent together
    with an end date that is not after it; the store stays as it was.  An
    update that goes through answers 200, keeps the id of the event and
    leaves every other event as it was. *)
Theorem event_update_guarded (d : Db) (id : string) (body : EventUpdate.t) :
  ((∀ ev, ev ∈ events d → Event.eventID ev ≠ id) →
   run (put_events id body) d
   = (Error 404 "Event not found", mkWorld d [(q_select, t_events)]))
  ∧ (primary_key Event.eventID (events d) →
     ∀ ev, ev ∈ events d → Event.eventID ev = id →
       (rejected_type (EventUpdate.eventType body) = true →
        run (put_events id body) d
        = (Error 400 "Invalid event type", mkWorld d [(q_select, t_events)]))
       ∧ (rejected_type (EventUpdate.eventType body) = false →
          ∀ start finish,
            EventUpdate.startDate body = Some (Some (Valid start)) →
            EventUpdate.endDate body = Some (Some (Valid finish)) →
            finish <= start →
            run (put_events id body) d
            = (Error 400 "End date must be after start date",
               mkWorld d [(q_select, t_events)]))
       ∧ (∀ reply w,
            run (put_events id body) d = (Json 200 reply, w) →
            Event.eventID (event reply) = id
            ∧ filter (fun e => Event.eventID e = id) (events (store w))
              = [event reply]
            ∧ filter (fun e => Event.eventID e ≠ id) (events (store w))
              = filter (fun e => Event.eventID e ≠ id) (events d))).
Proof.
  split.
  - intros Hmissing. unfold put_events. store_steps.
    rewrite (filter_none _ (events d)); [done|].
    intros ev Hin. by apply Hmissing.
  - intros Hkey ev Hin <-.
    pose proof (filter_key Event.eventID _ ev Hkey Hin) as Hone.
    split; [|split].
    + intros Hbad. unfold put_events. store_steps. rewrite Hone. cbn [single].
      by rewrite Hbad.
    + intros Hok start finish Hstart Hend Hle. unfold put_events. store_steps.
      rewrite Hone. cbn [single]. rewrite Hok.
      unfold update_start, update_end. rewrite Hstart, Hend. cbn [date_leb].
      by rewrite (proj2 (Z.leb_le finish start) Hle).
    + intros reply w. unfold put_events. store_steps. rewrite Hone.
      cbn [single]. destruct (rejected_type _); [done|].
      destruct (match update_start body, update_end body with
                | Some start, Some e => date_leb e start
                | _, _ => false
                end); [done|].
      destruct (update_start body) as [[s|]|], (update_end body) as [[e|]|];
        try done;
        (destruct (event_update body _ _) as [f|] eqn:Hf; [|done]);
        route_steps; rewrite Hone; cbn [fmap list_fmap single];
        intros [= <- <-]; cbn [event store events set_events];
        destruct (event_update_keeps body _ _ f ev Hf) as (Hid & _);
        (split; [done|]);
        (split; [apply fmap_keyed_one; [|done]|apply fmap_keyed_others]);
        intros x; by destruct (event_update_keeps body _ _ f x Hf).
Qed.

(** X15: An update that sends an end date without a start date does not store
    the date sent: whatever the value, the event's end date is set to null,
    and its start date stays. *)
Theorem event_update_end_only (d : Db) (id : string) (body : EventUpdate.t)
    (ev : Event.row) (sent : option Date) :
  primary_key Event.eventID (events d) →
  ev ∈ events d → Event.eventID ev = id →
  update_start body = None →
  EventUpdate.endDate body = Some sent →
  rejected_type (EventUpdate.eventType body) = false →
  EventUpdate.eventName body ≠ Some None →
  EventUpdate.eventType body ≠ Some None →
  ∃ reply w,
    run (put_events id body) d = (Json 200 reply, w)
    ∧ Event.endDate (event reply) = None
    ∧ Event.startDate (event reply) = Event.startDate ev.
Proof.
  intros Hkey Hin Hid Hstart Hend Htype Hname Hnull.
  assert (Hfinish : update_end body = None).
  { unfold update_start in Hstart. unfold update_end.
    by destruct (EventUpdate.startDate body) as [[?|]|]. }
  destruct (event_update_defined body (stored (update_start body))
              (stored (update_end body)) Hname Hnull) as [f Hf].
  eexists _, _.
  rewrite (put_events_updates d id body ev f); try done.
  - split; [reflexivity|]. cbn [event].
    destruct (event_update_keeps body _ _ f ev Hf) as (_ & -> & ->).
    rewrite Hend, Hstart, Hfinish. cbn.
    by destruct (EventUpdate.startDate body).
  - by rewrite Hstart.
  - by rewrite Hstart.
  - by rewrite Hfinish.
Qed.

(** X16: An update that sends a start date without an end date is not checked
    against the stored end date: any valid start date is stored, also one
    after the end date the event keeps. *)
Theorem event_update_start_only (d : Db) (id : string) (body : EventUpdate.t)
    (ev : Event.row) (start : Z) :
  primary_key Event.eventID (events d) →
  ev ∈ events d → Event.eventID ev = id →
  EventUpdate.startDate body = Some (Some (Valid start)) →
  EventUpdate.endDate body = None →
  rejected_type (EventUpdate.eventType body) = false →
  EventUpdate.eventName body ≠ Some None →
  EventUpdate.eventType body ≠ Some None →
  ∃ reply w,
    run (put_events id body) d = (Json 200 reply, w)
    ∧ Event.startDate (event reply) = start
    ∧ Event.endDate (event reply) = Event.endDate ev.
Proof.
  intros Hkey Hin Hid Hstart Hend Htype Hname Hnull.
  assert (Hs : update_start body = Some (Valid start))
    by (unfold update_start; by rewrite Hstart).
  assert (Hfinish : update_end body = None)
    by (unfold update_end; by rewrite Hstart, Hend).
  destruct (event_update_defined body (stored (update_start body))
              (stored (update_end body)) Hname Hnull) as [f Hf].
  eexists _, _.
  rewrite (put_events_updates d id body ev f); try done.
  - split; [reflexivity|]. cbn [event].
    destruct (event_update_keeps body _ _ f ev Hf) as (_ & -> & ->).
    by rewrite Hstart, Hend, Hs.
  - by rewrite Hs, Hfinish.
  - by rewrite Hs.
  - by rewrite Hfinish.
Qed.

Lemma delete_events_missing (d : Db) (id : string) :
  (∀ ev, ev ∈ events d → Event.eventID ev ≠ id) →
  run (delete_events id) d
  = (Error 404 "Event not found", mkWorld d [(q_select, t_events)]).
Proof.
  intros Hmissing. unfold delete_events. store_steps.
  rewrite (filter_none _ (events d)); [done|].
  intros ev Hin. by apply Hmissing.
Qed.

(** X17: Deleting an event: an id that is not stored answers 404 and changes
    nothing; a stored event that no RSVP refers to is removed, the other
    events staying as they were (the handler issues one select and one
    delete, both on the events).  Afterwards a second delete and an RSVP
    for the event are answered 404. *)
Theorem event_delete (d : Db) (id : string) :
  ((∀ ev, ev ∈ events d → Event.eventID ev ≠ id) →
   run (delete_events id) d
   = (Error 404 "Event not found", mkWorld d [(q_select, t_events)]))
  ∧ (primary_key Event.eventID (events d) →
     (∀ r, r ∈ rsvps d → Rsvp.eventID r ≠ id) →
     ∀ ev, ev ∈ events d → Event.eventID ev = id →
       let d1 := set_events d (filter (fun x => x ≠ ev) (events d)) in
       run (delete_events id) d
       = (Json 200 "Event deleted successfully",
          mkWorld d1 [(q_select, t_events); (q_delete, t_events)])
       ∧ run (delete_events id) d1
         = (Error 404 "Event not found", mkWorld d1 [(q_select, t_events)])
       ∧ ∀ userID status,
           id ≠ "" → status ∈ validStatuses →
           run (post_rsvp userID (Some id) (Some status)) d1
           = (Error 404 "Event not found",
              mkWorld d1 [(q_select, t_events)])).
Proof.
  split; [apply delete_events_missing|].
  intros Hkey _ ev Hin <- d1.
  pose proof (filter_key Event.eventID _ ev Hkey Hin) as Hone.
  assert (Hrest : filter (fun x => ¬ Event.eventID x = Event.eventID ev)
                         (events d)
                  = filter (fun x => x ≠ ev) (events d)).
  { apply filter_ext_in. intros x Hx. split.
    - intros Hne ->. by apply Hne.
    - intros Hne Heq. apply Hne.
      assert (x ∈ filter (fun y => Event.eventID y = Event.eventID ev)
                         (events d)) as Hmem
        by (by apply list_elem_of_filter).
      rewrite Hone in Hmem. by apply list_elem_of_singleton in Hmem. }
  assert (Hgone : ∀ x, x ∈ events d1 → Event.eventID x ≠ Event.eventID ev).
  { intros x Hx. cbn in Hx. rewrite <- Hrest in Hx.
    by apply list_elem_of_filter in Hx as [? _]. }
  split; [|split].
  - unfold delete_events. route_steps. rewrite Hone. cbn [single].
    unfold d1. by rewrite <- Hrest.
  - by apply delete_events_missing.
  - intros userID status Hid Hstatus. unfold post_rsvp.
    rewrite (truthy_Some _ Hid), (valid_status_truthy status Hstatus).
    rewrite decide_True by done. store_steps.
    by rewrite (filter_none _ (events d1)) by exact Hgone.
Qed.

Lemma merge_sort_singleton {A} (R : relation A) `{!∀ x y, Decision (R x y)}
    (x : A) :
  merge_sort R [x] = [x].
Proof. reflexivity. Qed.

(** X12: Looking up one event: an id that is not stored answers 404; a stored
    event is returned with the RSVPs stored for it, all of them and no
    others, and with the company of its ticker, if the catalog has one.
    The store is left as it was. *)
Theorem event_lookup (d : Db) (id : string) :
  ((∀ ev, ev ∈ events d → Event.eventID ev ≠ id) →
   run (get_event id) d
   = (Error 404 "Event not found", mkWorld d [(q_select, t_events)]))
  ∧ (primary_key Event.eventID (events d) →
     ∀ ev, ev ∈ events d → Event.eventID ev = id →
       ∃ view,
         run (get_event id) d
         = (Json 200 view, mkWorld d [(q_select, t_events)])
         ∧ EventView.event view = ev
         ∧ (∀ r, r ∈ EventView.rsvps view
                 ↔ r ∈ rsvps d ∧ Rsvp.eventID r = id)
         ∧ (∀ c, EventView.gicsCompany view = Some c →
                 c ∈ gics_companies d
                 ∧ Event.tickerSymbol ev = Some (Company.tickerSymbol c))).
Proof.
  split.
  - intros Hmissing. unfold get_event. store_steps.
    rewrite (filter_none _ (events d)); [done|].
    intros ev Hin. by apply Hmissing.
  - intros Hkey ev Hin <-.
    pose proof (filter_key Event.eventID _ ev Hkey Hin) as Hone.
    unfold get_event. store_steps. rewrite Hone, merge_sort_singleton.
    eexists. split; [reflexivity|]. cbn. split; [done|]. split.
    + intros r. rewrite list_elem_of_filter.
      split; [by intros [[? _] ?]|by intros [? ?]].
    + unfold company_of. intros c Hc.
      destruct (Event.tickerSymbol ev) as [ticker|]; [|done]. cbn in Hc.
      apply head_Some_elem_of, list_elem_of_filter in Hc as [<- Hc]. done.
Qed.

(** ** The calendar router *)

(** The reply of the calendar grid, spelled out. *)
Lemma get_calendar_body (d : Db) (userID : string) (q : CalendarQuery.t)
    (start stop : Z) :
  range_start (now d) q = Valid start → range_end (now d) q = Valid stop →
  ∃ body,
    run (get_calendar userID q) d
    = (Json 200 body,
       mkWorld d [(q_select, t_events); (q_select, t_gics_companies);
                  (q_select, t_subscriptions)])
    ∧ calendarData body
      = calendar_row userID (calendar_events d q start stop)
        <$> merge_sort by_companyName (gics_companies d)
    ∧ dateRange body = (toISODate start, toISODate stop)
    ∧ userSubscriptions body
      = filter (fun s => Subscription.userID s = userID
                         ∧ Subscription.status s = "ACTIVE")
               (subscriptions d)
    ∧ totalEvents (statistics body) = length (calendar_events d q start stop)
    ∧ userRsvps (statistics body)
      = foldl (fun count v =>
                 (count + length (own userID (EventView.rsvps v)))%nat)
              0%nat (calendar_events d q start stop)
    ∧ eventsByType (statistics body)
      = foldl (fun acc v =>
                 let type := Event.eventType (EventView.event v) in
                 <[type := (default 0 (acc !! type) + 1)%nat]> acc)
              ∅ (calendar_events d q start stop).
Proof.
  intros Hstart Hstop. unfold get_calendar. store_steps.
  rewrite Hstart, Hstop. by eexists.
Qed.


(** What the push idiom leaves under key [k]: the values of the items of
    key [k], in their order, appended to what the accumulator held. *)
Lemma push_fold_lookup {A B} (key : A -> string) (val : A -> B)
    (l : list A) (acc : gmap string (list B)) (k : string) :
  foldl (fun acc v => push_at (key v) (val v) acc) acc l !! k
  = match acc !! k, filter (fun v => key v = k) l with
    | None, [] => None
    | b, rows => Some (default [] b ++ (val <$> rows))
    end.
Proof.
  revert acc. induction l as [|v l IH]; intros acc.
  - cbn. destruct (acc !! k); [by rewrite app_nil_r|done].
  - cbn [foldl]. rewrite IH, push_at_lookup, filter_cons.
    destruct (decide (key v = k)) as [Heq|Hne]; [|done].
    subst k. destruct (acc !! key v) as [b|]; cbn;
      [by rewrite <- app_assoc|done].
Qed.

Lemma push_fold_bucket {A B} (key : A -> string) (val : A -> B)
    (l : list A) (k : string) (x : B) :
  (∃ bucket,
     foldl (fun acc v => push_at (key v) (val v) acc) ∅ l !! k = Some bucket
     ∧ x ∈ bucket)
  ↔ ∃ v, x = val v ∧ v ∈ l ∧ key v = k.
Proof.
  rewrite push_fold_lookup, lookup_empty.
  remember (filter (fun v => key v = k) l) as rows eqn:Hrows. split.
  - intros (bucket & Hbucket & Hx).
    assert (bucket = val <$> rows) as ->
      by (destruct rows; [done|by injection Hbucket as <-]).
    apply list_elem_of_fmap in Hx as (v & -> & Hv). subst rows.
    apply list_elem_of_filter in Hv as [Hk Hv]. by exists v.
  - intros (v & -> & Hv & Hk).
    assert (v ∈ rows) as Hin by (subst rows; by apply list_elem_of_filter).
    exists (val <$> rows). split; [|by apply list_elem_of_fmap_2].
    destruct rows; [by apply elem_of_nil in Hin|done].
Qed.

Lemma calendar_events_spec (d : Db) (q : CalendarQuery.t) (start stop : Z)
    (v : EventView.t) :
  v ∈ calendar_events d q start stop
  ↔ ∃ e, v = embed d (fun _ => True) e
         ∧ e ∈ events d
         ∧ start <= Event.startDate e <= stop
         ∧ eq_if_given (CalendarQuery.gicsSector q) (Event.gicsSector e)
         ∧ eq_if_given (CalendarQuery.eventType q) (Some (Event.eventType e))
         ∧ in_if_given (CalendarQuery.followedCompanies q)
                       (Event.tickerSymbol e).
Proof.
  unfold calendar_events. rewrite list_elem_of_fmap. split.
  - intros (e & -> & He). rewrite merge_sort_Permutation in He.
    apply list_elem_of_filter in He as [(? & ? & ? & ? & ?) He].
    by exists e.
  - intros (e & -> & He & [? ?] & ? & ? & ?). exists e. split; [done|].
    rewrite merge_sort_Permutation. by apply list_elem_of_filter.
Qed.

(** The company embedded in an event has the event's ticker. *)
Lemma embedded_company_ticker (d : Db) (Q : Rsvp.row -> Prop)
    `{!∀ r, Decision (Q r)} (e : Event.row) (ticker : string) :
  Company.tickerSymbol <$> EventView.gicsCompany (embed d Q e) = Some ticker →
  Event.tickerSymbol e = Some ticker.
Proof.
  cbn. unfold company_of. destruct (Event.tickerSymbol e) as [t|]; [|done].
  cbn. destruct (head _) as [c|] eqn:Hc; [|done]. cbn. intros [= <-].
  apply head_Some_elem_of, list_elem_of_filter in Hc as [-> _]. done.
Qed.

(** X18: The cells of the calendar grid.  In the row of a company, the bucket of
    a date holds the selected events that carry the company's ticker and
    start on that date, each with the requesting user's RSVP for it, and
    nothing else; the events selected are the stored events that start
    within the range and pass the filters of the query. *)
Theorem calendar_grid_cells (d : Db) (userID : string) (q : CalendarQuery.t)
    (start stop : Z) :
  range_start (now d) q = Valid start → range_end (now d) q = Valid stop →
  ∃ body w,
    run (get_calendar userID q) d = (Json 200 body, w)
    ∧ ∀ row, row ∈ calendarData body →
        ∀ date cell,
          (∃ bucket, row_events row !! date = Some bucket ∧ cell ∈ bucket)
          ↔ ∃ e,
              cell = mkCalendarEvent
                       (embed d (fun _ => True) e)
                       (head (filter (addressed userID (Event.eventID e))
                                     (rsvps d)))
              ∧ e ∈ events d
              ∧ Event.tickerSymbol e
                = Some (Company.tickerSymbol (company row))
              ∧ toISODate (Event.startDate e) = date
              ∧ start <= Event.startDate e <= stop
              ∧ eq_if_given (CalendarQuery.gicsSector q) (Event.gicsSector e)
              ∧ eq_if_given (CalendarQuery.eventType q)
                            (Some (Event.eventType e))
              ∧ in_if_given (CalendarQuery.followedCompanies q)
                            (Event.tickerSymbol e).
Proof.
  intros Hstart Hstop.
  destruct (get_calendar_body d userID q start stop Hstart Hstop)
    as (body & Hrun & Hrows & _).
  eexists body, _. split; [exact Hrun|].
  intros row Hrow date cell.
  rewrite Hrows in Hrow. apply list_elem_of_fmap in Hrow as (c & -> & Hc).
  unfold calendar_row. cbn [row_events company Company.tickerSymbol].
  rewrite (push_fold_bucket
             (fun v => toISODate (Event.startDate (EventView.event v)))
             (fun v => mkCalendarEvent v (head (own userID (EventView.rsvps v))))).
  assert (Hown : ∀ e, own userID (EventView.rsvps (embed d (fun _ => True) e))
                      = filter (addressed userID (Event.eventID e)) (rsvps d)).
  { intros e. unfold own. cbn. rewrite list_filter_filter.
    apply filter_ext_in. intros r _. unfold addressed.
    split; [by intros [? [? _]]|by intros [? ?]]. }
  split.
  - intros (v & -> & Hv & Hdate).
    apply list_elem_of_filter in Hv as [Hticker Hv].
    apply calendar_events_spec in Hv
      as (e & -> & He & Hrange & Hsector & Htype & Hfollowed).
    assert (Event.tickerSymbol e = Some (Company.tickerSymbol c)) as Hsame.
    { destruct Hticker as [Hticker|Hticker]; [done|].
      by apply (embedded_company_ticker d (fun _ => True)). }
    exists e. rewrite Hown. destruct Hrange. by repeat split.
  - intros (e & -> & He & Hticker & Hdate & Hrange & Hsector & Htype
            & Hfollowed).
    exists (embed d (fun _ => True) e). rewrite Hown.
    split; [done|]. split; [|done].
    apply list_elem_of_filter. split; [by left|].
    apply calendar_events_spec. by exists e.
Qed.

(** *** The statistics of the calendar grid *)

Lemma count_fold_lookup {A} (key : A -> string) (l : list A)
    (acc : gmap string nat) (k : string) :
  foldl (fun acc v => <[key v := (default 0 (acc !! key v) + 1)%nat]> acc)
        acc l !! k
  = match acc !! k, length (filter (fun v => key v = k) l) with
    | None, O => None
    | n, count => Some (default 0 n + count)%nat
    end.
Proof.
  revert acc. induction l as [|v l IH]; intros acc.
  - cbn. destruct (acc !! k); [f_equal; lia|done].
  - cbn [foldl]. rewrite IH, filter_cons.
    destruct (decide (key v = k)) as [Heq|Hne].
    + subst k. rewrite lookup_insert_eq. cbn [length].
      destruct (acc !! key v), (length _); cbn; f_equal; lia.
    + by rewrite lookup_insert_ne.
Qed.

Lemma sum_fold {A} (g : A -> nat) (l : list A) (n : nat) :
  (∀ v, v ∈ l → g v ≤ 1)%nat →
  foldl (fun count v => (count + g v)%nat) n l
  = (n + length (filter (fun v => g v ≠ 0%nat) l))%nat.
Proof.
  revert n. induction l as [|v l IH]; intros n Hsmall; [cbn; lia|].
  cbn [foldl]. rewrite IH by (intros x Hx; apply Hsmall; by right).
  rewrite filter_cons.
  pose proof (Hsmall v (list_elem_of_here _ _)).
  case_decide; cbn [length]; lia.
Qed.

(** X19: The statistics of the calendar grid: the total is the number of
    selected events, the count of a type is the number of selected events
    of that type (a type without events has no entry), and, in a store
    with at most one RSVP per (user, event), the user's RSVP count is the
    number of selected events the user has an RSVP for. *)
Theorem calendar_statistics (d : Db) (userID : string) (q : CalendarQuery.t)
    (start stop : Z) :
  range_start (now d) q = Valid start → range_end (now d) q = Valid stop →
  ∃ body w,
    run (get_calendar userID q) d = (Json 200 body, w)
    ∧ totalEvents (statistics body) = length (calendar_events d q start stop)
    ∧ (∀ type,
         default 0%nat (eventsByType (statistics body) !! type)
         = length (filter (fun v => Event.eventType (EventView.event v) = type)
                          (calendar_events d q start stop)))
    ∧ (∀ type, eventsByType (statistics body) !! type ≠ Some 0%nat)
    ∧ (rsvp_unique d →
       userRsvps (statistics body)
       = length (filter (fun v => own userID (EventView.rsvps v) ≠ [])
                        (calendar_events d q start stop))
       ∧ (userRsvps (statistics body) ≤ totalEvents (statistics body))%nat).
Proof.
  intros Hstart Hstop.
  destruct (get_calendar_body d userID q start stop Hstart Hstop)
    as (body & Hrun & _ & _ & _ & Htotal & Huser & Htypes).
  eexists body, _. split; [exact Hrun|]. split; [done|].
  assert (Hcount : ∀ type,
            eventsByType (statistics body) !! type
            = match length (filter (fun v => Event.eventType (EventView.event v)
                                             = type)
                                   (calendar_events d q start stop)) with
              | O => None
              | count => Some count
              end).
  { intros type. rewrite Htypes.
    rewrite (count_fold_lookup
               (fun v => Event.eventType (EventView.event v))).
    rewrite lookup_empty. by destruct (length (filter _ _)). }
  split; [|split].
  - intros type. rewrite Hcount. by destruct (length (filter _ _)).
  - intros type. rewrite Hcount. by destruct (length (filter _ _)).
  - intros Huniq. rewrite Htotal.
    assert (userRsvps (statistics body)
            = length (filter (fun v => own userID (EventView.rsvps v) ≠ [])
                             (calendar_events d q start stop))) as ->.
    { rewrite Huser, sum_fold.
      - cbn. f_equal. apply filter_ext_in. intros v _.
        by destruct (own userID (EventView.rsvps v)).
      - intros v Hv. apply calendar_events_spec in Hv as (e & -> & _).
        unfold own. cbn. rewrite list_filter_filter.
        rewrite (filter_ext_in _ (addressed userID (Event.eventID e)))
          by (intros r _; unfold addressed;
              split; [by intros [? [? _]]|by intros [? ?]]).
        destruct (addressed_at_most_once d userID (Event.eventID e) Huniq)
          as [->|[r ->]]; cbn; lia. }
    split; [done|]. apply length_filter.
Qed.

(** *** The buckets of the week view *)



















(** ** What a request leaves alone *)

Lemma unchanged_but_refl (t : option Table) (d : Db) : unchanged_but t d d.
Proof. by repeat split. Qed.

Lemma unchanged_but_trans (t : option Table) (d1 d2 d3 : Db) :
  unchanged_but t d1 d2 → unchanged_but t d2 d3 → unchanged_but t d1 d3.
Proof.
  intros (Hc1 & Hn1 & He1 & Hr1 & Hs1 & Ha1) (Hc2 & Hn2 & He2 & Hr2 & Hs2 & Ha2).
  repeat split.
  - by rewrite Hc2.
  - by rewrite Hn2.
  - intros Ht. by rewrite He2, He1.
  - intros Ht. by rewrite Hr2, Hr1.
  - intros Ht. by rewrite Hs2, Hs1.
  - intros Ht. by rewrite Ha2, Ha1.
Qed.

Lemma writes_only_ret {A} (t : option Table) (a : A) : writes_only t (ret a).
Proof. intros w. apply unchanged_but_refl. Qed.

Lemma writes_only_bind {A B} (t : option Table) (m : M A) (k : A -> M B) :
  writes_only t m → (∀ a, writes_only t (k a)) → writes_only t (bind m k).
Proof.
  intros Hm Hk w. unfold bind. specialize (Hm w).
  destruct (m w) as [a w1]. specialize (Hk a w1).
  eapply unchanged_but_trans; [exact Hm|exact Hk].
Qed.

Lemma writes_only_issue (t : option Table) (v : Verb) (table : Table) :
  writes_only t (issue v table).
Proof. intros w. apply unchanged_but_refl. Qed.

Lemma writes_only_get_db (t : option Table) : writes_only t get_db.
Proof. intros w. apply unchanged_but_refl. Qed.

Lemma writes_only_clock (t : option Table) : writes_only t clock.
Proof. intros w. apply unchanged_but_refl. Qed.

Lemma writes_only_select_events (t : option Table) (P : Event.row -> Prop)
    `{!∀ r, Decision (P r)} :
  writes_only t (select_events P).
Proof. intros w. apply unchanged_but_refl. Qed.

Lemma writes_only_select_events_embedded (t : option Table) (inner : bool)
    (P : Event.row -> Prop) `{!∀ r, Decision (P r)}
    (Q : Rsvp.row -> Prop) `{!∀ r, Decision (Q r)} :
  writes_only t (select_events_embedded inner P Q).
Proof. intros w. apply unchanged_but_refl. Qed.

Lemma writes_only_select_rsvps (t : option Table) (P : Rsvp.row -> Prop)
    `{!∀ r, Decision (P r)} :
  writes_only t (select_rsvps P).
Proof. intros w. apply unchanged_but_refl. Qed.

Lemma writes_only_select_rsvps_ordered (t : option Table)
    (P : Rsvp.row -> Prop) `{!∀ r, Decision (P r)} :
  writes_only t (select_rsvps_ordered P).
Proof. intros w. apply unchanged_but_refl. Qed.

Lemma writes_only_select_subscriptions (t : option Table)
    (P : Subscription.row -> Prop) `{!∀ r, Decision (P r)} :
  writes_only t (select_subscriptions P).
Proof. intros w. apply unchanged_but_refl. Qed.

Lemma writes_only_select_subscriptions_ordered (t : option Table)
    (P : Subscription.row -> Prop) `{!∀ r, Decision (P r)} :
  writes_only t (select_subscriptions_ordered P).
Proof. intros w. apply unchanged_but_refl. Qed.

Lemma writes_only_select_companies_ordered (t : option Table) :
  writes_only t select_companies_ordered.
Proof. intros w. apply unchanged_but_refl. Qed.

Lemma writes_only_update_rsvps (P : Rsvp.row -> Prop) `{!∀ r, Decision (P r)}
    (f : Rsvp.row -> Rsvp.row) :
  writes_only (Some t_rsvps) (update_rsvps P f).
Proof. intros w. by repeat split. Qed.

Lemma writes_only_insert_rsvp (userID eventID status : string) :
  writes_only (Some t_rsvps) (insert_rsvp userID eventID status).
Proof. intros w. by repeat split. Qed.

Lemma writes_only_delete_rsvps (P : Rsvp.row -> Prop)
    `{!∀ r, Decision (P r)} :
  writes_only (Some t_rsvps) (delete_rsvps P).
Proof. intros w. by repeat split. Qed.

Lemma writes_only_update_subscriptions (P : Subscription.row -> Prop)
    `{!∀ r, Decision (P r)} (f : Subscription.row -> Subscription.row) :
  writes_only (Some t_subscriptions) (update_subscriptions P f).
Proof. intros w. by repeat split. Qed.

Lemma writes_only_insert_subscription
    (mkrow : string -> Z -> Subscription.row) :
  writes_only (Some t_subscriptions) (insert_subscription mkrow).
Proof. intros w. by repeat split. Qed.

Lemma writes_only_delete_subscriptions_where (P : Subscription.row -> Prop)
    `{!∀ r, Decision (P r)} :
  writes_only (Some t_subscriptions) (delete_subscriptions_where P).
Proof. intros w. by repeat split. Qed.

Lemma writes_only_update_events (P : Event.row -> Prop)
    `{!∀ r, Decision (P r)} (f : Event.row -> Event.row) :
  writes_only (Some t_events) (update_events P f).
Proof. intros w. by repeat split. Qed.

Lemma writes_only_insert_event (mkrow : string -> Event.row) :
  writes_only (Some t_events) (insert_event mkrow).
Proof. intros w. by repeat split. Qed.

Lemma writes_only_delete_events_where (P : Event.row -> Prop)
    `{!∀ r, Decision (P r)} :
  writes_only (Some t_events) (delete_events_where P).
Proof. intros w. by repeat split. Qed.

Create HintDb frame.
#[export] Hint Resolve writes_only_ret writes_only_issue writes_only_get_db
  writes_only_clock writes_only_select_events
  writes_only_select_events_embedded writes_only_select_rsvps
  writes_only_select_rsvps_ordered writes_only_select_subscriptions
  writes_only_select_subscriptions_ordered
  writes_only_select_companies_ordered writes_only_update_rsvps
  writes_only_insert_rsvp writes_only_delete_rsvps
  writes_only_update_subscriptions writes_only_insert_subscription
  writes_only_delete_subscriptions_where writes_only_update_events
  writes_only_insert_event writes_only_delete_events_where : frame.

(** A computation put together from the store primitives writes what its
    primitives write. *)
Ltac frame_steps :=
  repeat first
    [ progress auto with frame
    | apply writes_only_bind; [|intros ?]
    | case_match ].

Lemma after_unchanged {A} (t : option Table) (m : M A) (d : Db) :
  writes_only t m → unchanged_but t d (after m d).
Proof. intros Hm. apply (Hm (mkWorld d [])). Qed.

Lemma serve_unchanged (r : Request) (d : Db) :
  unchanged_but (written r) d (serve r d).
Proof.
  destruct r; cbn [serve written]; apply after_unchanged.
  - unfold post_rsvp. frame_steps.
  - unfold get_rsvp_user. frame_steps.
  - unfold get_rsvp_event. frame_steps.
  - unfold delete_rsvp. frame_steps.
  - unfold get_subscriptions. frame_steps.
  - unfold post_subscriptions. frame_steps.
  - unfold put_subscriptions. frame_steps.
  - unfold delete_subscriptions. frame_steps.
  - unfold get_sectors. frame_steps.
  - unfold get_event. frame_steps.
  - unfold post_events. frame_steps.
  - unfold put_events. frame_steps.
  - unfold delete_events. frame_steps.
  - unfold get_calendar. frame_steps.
  - unfold get_calendar_week. frame_steps.
Qed.

(** X22: Requests write to the tables of their routes at most, as far as
    the statements the handlers issue go.  After any sequence of requests
    the catalog of companies and the clock are as before; so are the events unless a request of the sequence creates,
    updates or deletes an event, and likewise the RSVPs and the
    subscriptions; and a sequence of requests to reading routes leaves the
    whole store as it was. *)
Theorem requests_frame (requests : list Request) (d : Db) :
  let d' := foldl (fun d r => serve r d) d requests in
  gics_companies d' = gics_companies d
  ∧ now d' = now d
  ∧ (Forall (fun r => written r ≠ Some t_events) requests →
     events d' = events d)
  ∧ (Forall (fun r => written r ≠ Some t_rsvps) requests →
     rsvps d' = rsvps d)
  ∧ (Forall (fun r => written r ≠ Some t_subscriptions) requests →
     subscriptions d' = subscriptions d)
  ∧ (Forall (fun r => written r = None) requests → d' = d).
Proof.
  cbv zeta. revert d. induction requests as [|r requests IH]; intros d.
  - by repeat split.
  - cbn [foldl].
    destruct (IH (serve r d)) as (Hc & Hn & He & Hr & Hs & Ha).
    destruct (serve_unchanged r d) as (Hc1 & Hn1 & He1 & Hr1 & Hs1 & Ha1).
    repeat split.
    + by rewrite Hc.
    + by rewrite Hn.
    + intros [Hhead Htail]%Forall_cons. by rewrite He, He1.
    + intros [Hhead Htail]%Forall_cons. by rewrite Hr, Hr1.
    + intros [Hhead Htail]%Forall_cons. by rewrite Hs, Hs1.
    + intros [Hhead Htail]%Forall_cons. by rewrite Ha, Ha1.
Qed.

(** X23: At most one RSVP per (user, event) is an invariant of the routes: it
    holds after any sequence of requests served from a store in which it
    holds, in particular from a store without RSVPs. *)
Theorem rsvp_unique_invariant (requests : list Request) (d : Db) :
  (rsvp_unique d → rsvp_unique (foldl (fun d r => serve r d) d requests))
  ∧ (rsvps d = [] → rsvp_unique (foldl (fun d r => serve r d) d requests)).
Proof.
  assert (Hstep : ∀ r d, rsvp_unique d → rsvp_unique (serve r d)).
  { intros r d0 Huniq.
    destruct r;
      try (match goal with
           | |- rsvp_unique (serve ?r _) =>
               destruct (serve_unchanged r d0) as (_ & _ & _ & Hsame & _)
           end;
           unfold rsvp_unique; rewrite Hsame; [exact Huniq|by cbn]);
      cbn [serve]; unfold after.
    - by apply rsvp_unique_post.
    - by apply rsvp_unique_delete. }
  assert (Hall : ∀ d, rsvp_unique d →
                      rsvp_unique (foldl (fun d r => serve r d) d requests)).
  { induction requests as [|r requests IH]; intros d0 Huniq; [done|].
    cbn [foldl]. by apply IH, Hstep. }
  split; [apply Hall|]. intros Hnone. apply Hall.
  unfold rsvp_unique, primary_key. rewrite Hnone. constructor.
Qed.

(** ** The further properties at the sample data *)

Lemma sample_rsvps_unique : rsvp_unique sample_db.
Proof. unfold rsvp_unique, primary_key. by_computation. Defined.

Lemma post_rsvp_unknown_event_witness :
  run (post_rsvp "analyst" (Some "e9") (Some "ACCEPTED")) sample_db
  = (Error 404 "Event not found", mkWorld sample_db [(q_select, t_events)]).
Proof.
  apply post_rsvp_unknown_event.
  - discriminate.
  - by_computation.
  - apply Forall_forall. by_computation.
Defined.

Lemma rsvp_upsert_last_wins_witness :
  ∃ reply1 w1 reply2 w2,
    run (post_rsvp "analyst" (Some "e2") (Some "DECLINED")) sample_db
    = (Json 200 reply1, w1)
    ∧ run (post_rsvp "analyst" (Some "e2") (Some "TENTATIVE")) (store w1)
      = (Json 200 reply2, w2)
    ∧ filter (addressed "analyst" "e2") (rsvps (store w2)) = [rsvp reply2]
    ∧ Rsvp.status (rsvp reply2) = "TENTATIVE".
Proof.
  apply rsvp_upsert_last_wins.
  - discriminate.
  - by_computation.
  - by_computation.
  - exact sample_events_keyed.
  - exists roadshow. split; [by_computation|reflexivity].
  - exact sample_rsvps_unique.
Defined.

Lemma delete_rsvp_duplicated_witness :
  run (delete_rsvp "analyst" "e2") doubled_db
  = (Error 404 "RSVP not found", mkWorld doubled_db [(q_select, t_rsvps)]).
Proof. eapply delete_rsvp_duplicated. vm_compute. reflexivity. Defined.

Lemma subscription_recreate_after_deactivation_witness :
  let created :=
    run (post_subscriptions "analyst" (Some "Technology") None None)
        sample_db in
  ∃ reply reply2 w2 reply3 w3,
    created.1 = Json 201 reply
    ∧ run (put_subscriptions "analyst" (Subscription.subID (subscription reply))
             (set_status_only "INACTIVE")) (store created.2)
      = (Json 200 reply2, w2)
    ∧ Subscription.status (subscription reply2) = "INACTIVE"
    ∧ run (post_subscriptions "analyst" (Some "Technology") None None)
          (store w2)
      = (Json 201 reply3, w3)
    ∧ Subscription.status (subscription reply3) = "ACTIVE".
Proof.
  cbv zeta.
  destruct (run (post_subscriptions "analyst" (Some "Technology") None None)
                sample_db) as [out w1] eqn:Hrun.
  assert (Hout : ∃ reply, out = Json 201 reply
                          ∧ primary_key Subscription.subID
                              (subscriptions (store w1))).
  { vm_compute in Hrun. injection Hrun as <- <-. eexists. split; [reflexivity|].
    unfold primary_key. by_computation. }
  destruct Hout as (reply & -> & Hkey).
  destruct (subscription_recreate_after_deactivation sample_db "analyst"
              (Some "Technology") None None reply w1 Hrun Hkey)
    as (reply2 & w2 & reply3 & w3 & H).
  by exists reply, reply2, w2, reply3, w3.
Defined.


Lemma event_create_well_formed_witness :
  let created := run (post_events investor_day) sample_db in
  ∃ reply,
    created.1 = Json 201 reply
    ∧ Event.eventID (event reply) = gen_id (next_id sample_db)
    ∧ Event.gicsSector (event reply) ≠ Some ""
    ∧ ∀ finish, Event.endDate (event reply) = Some finish →
                Event.startDate (event reply) < finish.
Proof.
  cbv zeta.
  destruct (run (post_events investor_day) sample_db) as [out w] eqn:Hrun.
  assert (Hout : ∃ reply, out = Json 201 reply).
  { vm_compute in Hrun. injection Hrun as <- _. by eexists. }
  destruct Hout as (reply & ->).
  destruct (event_create_well_formed sample_db investor_day reply w Hrun)
    as (_ & Hid & _ & _ & Hdates & _ & Hsector & _).
  by exists reply.
Defined.

Lemma event_update_end_only_witness :
  ∃ reply w,
    run (put_events "e4" (only_end (Valid (utc 2024 6 6 17 0 0))))
        conference_db
    = (Json 200 reply, w)
    ∧ Event.endDate (event reply) = None
    ∧ Event.startDate (event reply) = Event.startDate conference.
Proof.
  apply (event_update_end_only conference_db "e4" _ conference
           (Some (Valid (utc 2024 6 6 17 0 0)))).
  - unfold primary_key. by_computation.
  - by_computation.
  - reflexivity.
  - reflexivity.
  - reflexivity.
  - reflexivity.
  - discriminate.
  - discriminate.
Defined.

Lemma event_update_start_only_witness :
  ∃ reply w,
    run (put_events "e4" (only_start (Valid (utc 2024 7 1 9 0 0))))
        conference_db
    = (Json 200 reply, w)
    ∧ Event.startDate (event reply) = utc 2024 7 1 9 0 0
    ∧ Event.endDate (event reply) = Event.endDate conference.
Proof.
  apply (event_update_start_only conference_db "e4" _ conference).
  - unfold primary_key. by_computation.
  - by_computation.
  - reflexivity.
  - reflexivity.
  - reflexivity.
  - reflexivity.
  - discriminate.
  - discriminate.
Defined.

Lemma calendar_grid_cells_witness :
  ∃ body w,
    run (get_calendar "analyst"
           (between (utc 2024 3 1 0 0 0) (utc 2024 4 30 0 0 0))) sample_db
    = (Json 200 body, w)
    ∧ ∀ row, row ∈ calendarData body →
        ∀ date bucket cell,
          row_events row !! date = Some bucket → cell ∈ bucket →
          Event.tickerSymbol (EventView.event (shown cell))
          = Some (Company.tickerSymbol (company row))
          ∧ toISODate (Event.startDate (EventView.event (shown cell))) = date.
Proof.
  destruct (calendar_grid_cells sample_db "analyst"
              (between (utc 2024 3 1 0 0 0) (utc 2024 4 30 0 0 0))
              (utc 2024 3 1 0 0 0) (utc 2024 4 30 0 0 0) eq_refl eq_refl)
    as (body & w & Hrun & Hcells).
  exists body, w. split; [exact Hrun|].
  intros row Hrow date bucket cell Hbucket Hcell.
  destruct (proj1 (Hcells row Hrow date cell)) as (e & -> & _ & Hticker & Hdate & _).
  - by exists bucket.
  - by split.
Defined.

Lemma calendar_statistics_witness :
  ∃ body w,
    run (get_calendar "analyst"
           (between (utc 2024 3 1 0 0 0) (utc 2024 4 30 0 0 0))) sample_db
    = (Json 200 body, w)
    ∧ totalEvents (statistics body) = 2%nat
    ∧ userRsvps (statistics body) = 1%nat
    ∧ eventsByType (statistics body) !! "ROADSHOW" ≠ Some 0%nat.
Proof.
  destruct (calendar_statistics sample_db "analyst"
              (between (utc 2024 3 1 0 0 0) (utc 2024 4 30 0 0 0))
              (utc 2024 3 1 0 0 0) (utc 2024 4 30 0 0 0) eq_refl eq_refl)
    as (body & w & Hrun & Htotal & _ & Hnonzero & Huser).
  exists body, w. split; [exact Hrun|].
  destruct (Huser sample_rsvps_unique) as [Hown _].
  rewrite Htotal, Hown. split; [by vm_compute|]. split; [by vm_compute|].
  apply Hnonzero.
Defined.
